(** * Programmers-and-religion survey: verification of [progrelig14/results.js]

    A shallow embedding of the survey analysis script: the schema
    registry ([fields], [statements], ...), the row normaliser
    ([parseList], [parseLang], [parseRow]), the predicates
    ([isReligious], [makeHasOpinion]), the belief-by-language
    cross-tabulation of [renderAgreementTable] and the load callback.

    Conventions of the embedding.
    - A JavaScript string is a Rocq [string]; each character stands for
      one UTF-16 code unit below 256 (the Latin-1 range).
    - A JavaScript number is a [number]: NaN, the two infinities, or a
      finite binary64 value carried as the rational it denotes. The two
      zeros are identified: nothing in the script tells them apart.
    - An object used as a record is a [gmap string value]; objects live in
      a [heap] and are passed by reference ([loc]), so that the in-place
      writes of [update] are visible through every alias.
    - A call that throws (a [TypeError]) returns [Throw]. *)

From Stdlib Require Import ZArith QArith Qround Qabs Qpower Lqa String Ascii List Lia Bool
  Sorting.Sorted Sorting.Permutation.
From stdpp Require Import base gmap strings list.

Open Scope string_scope.

(** ** Host language: strings *)

Module JS.

(** [WhiteSpace] and [LineTerminator] code units below 256: TAB, LF, VT, FF,
    CR, SP and NBSP. These are what [String.prototype.trim] strips and what
    may surround a numeric literal in [ToNumber]. *)
Definition isWhiteSpace (c : ascii) : bool :=
  existsb (N.eqb (N_of_ascii c)) [9; 10; 11; 12; 13; 32; 160]%N.

(** [LineTerminator] code units below 256, which [.] does not match. *)
Definition isLineTerminator (c : ascii) : bool :=
  existsb (N.eqb (N_of_ascii c)) [10; 13]%N.

(** The simple lower-case mapping on code units below 256: [A-Z], and the
    Latin-1 capitals U+00C0..U+00DE except the multiplication sign U+00D7. *)
Definition lowerChar (c : ascii) : ascii :=
  let n := N_of_ascii c in
  if ((65 <=? n) && (n <=? 90) || (192 <=? n) && (n <=? 222) && negb (n =? 215))%N
  then ascii_of_N (n + 32) else c.

(** [String.prototype.toLowerCase] *)
Fixpoint toLowerCase (s : string) : string :=
  match s with
  | EmptyString => EmptyString
  | String c s' => String (lowerChar c) (toLowerCase s')
  end.

Fixpoint trimStart (s : string) : string :=
  match s with
  | EmptyString => EmptyString
  | String c s' => if isWhiteSpace c then trimStart s' else s
  end.

Fixpoint trimEnd (s : string) : string :=
  match s with
  | EmptyString => EmptyString
  | String c s' =>
      match trimEnd s' with
      | EmptyString => if isWhiteSpace c then EmptyString else String c EmptyString
      | t => String c t
      end
  end.

(** [String.prototype.trim] *)
Definition trim (s : string) : string := trimEnd (trimStart s).

(** [Array.prototype.join] *)
Fixpoint join (sep : string) (l : list string) : string :=
  match l with
  | [] => ""
  | [x] => x
  | x :: l' => x +:+ sep +:+ join sep l'
  end.

(** [String.prototype.split] with a separator that matches exactly one
    code unit, the ones satisfying [sep]: the pieces between the matches, in
    order; a string without a match is returned whole, also the empty one. *)
Fixpoint split (sep : ascii -> bool) (s : string) : list string :=
  match s with
  | EmptyString => [EmptyString]
  | String c s' =>
      if sep c then EmptyString :: split sep s'
      else match split sep s' with
           | [] => [String c EmptyString]
           | p :: ps => String c p :: ps
           end
  end.

(** ** Host language: regular expressions

    The fragment of the pattern syntax that [langPatterns] uses. Capture
    groups only group here, since the script looks at whether a match
    exists and never at what was captured. *)

Inductive regex : Type :=
| Fail                          (* matches nothing *)
| Eps                           (* the empty alternative, as in [(|lang)] *)
| Chr (c : ascii)               (* a literal or escaped character *)
| Dot                           (* [.]: anything but a line terminator *)
| Seq (r1 r2 : regex)
| Alt (r1 r2 : regex)           (* [r1|r2] *)
| Star (r : regex).             (* [r*] *)

(** [r+] *)
Definition Plus (r : regex) : regex := Seq r (Star r).

(** A literal run of characters. *)
Fixpoint Lit (s : string) : regex :=
  match s with
  | EmptyString => Eps
  | String c EmptyString => Chr c
  | String c s' => Seq (Chr c) (Lit s')
  end.

Fixpoint nullable (r : regex) : bool :=
  match r with
  | Fail => false
  | Eps => true
  | Chr _ => false
  | Dot => false
  | Seq r1 r2 => nullable r1 && nullable r2
  | Alt r1 r2 => nullable r1 || nullable r2
  | Star _ => true
  end.

(** What is left of [r] after it has read [c]. *)
Fixpoint deriv (c : ascii) (r : regex) : regex :=
  match r with
  | Fail => Fail
  | Eps => Fail
  | Chr c' => if Ascii.eqb c c' then Eps else Fail
  | Dot => if isLineTerminator c then Fail else Eps
  | Seq r1 r2 =>
      if nullable r1 then Alt (Seq (deriv c r1) r2) (deriv c r2)
      else Seq (deriv c r1) r2
  | Alt r1 r2 => Alt (deriv c r1) (deriv c r2)
  | Star r1 => Seq (deriv c r1) (Star r1)
  end.

(** [r] matches some prefix of [s]. *)
Fixpoint matchesAt (r : regex) (s : string) : bool :=
  nullable r ||
  match s with
  | EmptyString => false
  | String c s' => matchesAt (deriv c r) s'
  end.

(** [s.match(r)] is not [null]: [r] matches at some position of [s]. *)
Fixpoint test (r : regex) (s : string) : bool :=
  matchesAt r s ||
  match s with
  | EmptyString => false
  | String _ s' => test r s'
  end.

(** The strings that a pattern matches from end to end. *)
Inductive matches : regex -> string -> Prop :=
| matches_Eps : matches Eps ""
| matches_Chr c : matches (Chr c) (String c "")
| matches_Dot c : isLineTerminator c = false -> matches Dot (String c "")
| matches_Seq r1 r2 s1 s2 :
    matches r1 s1 -> matches r2 s2 -> matches (Seq r1 r2) (s1 +:+ s2)
| matches_Alt_l r1 r2 s : matches r1 s -> matches (Alt r1 r2) s
| matches_Alt_r r1 r2 s : matches r2 s -> matches (Alt r1 r2) s
| matches_Star_nil r : matches (Star r) ""
| matches_Star_app r s1 s2 :
    matches r s1 -> matches (Star r) s2 -> matches (Star r) (s1 +:+ s2).

(** ** Host language: numbers *)

Inductive number : Type :=
| NaN
| PInf                          (* +Infinity *)
| NInf                          (* -Infinity *)
| Fin (q : Q).                  (* a finite binary64 value *)

(** [2^e] for any integer [e]. *)
Definition pow2 (e : Z) : Q := (2 ^ e)%Q.

(** Nearest integer, ties to the even one. *)
Definition roundHalfEven (q : Q) : Z :=
  let f := Qfloor q in
  match Qcompare (q - inject_Z f) (1 # 2) with
  | Lt => f
  | Gt => (f + 1)%Z
  | Eq => if Z.even f then f else (f + 1)%Z
  end.

(** The binary exponent of a positive rational: [2^e <= q < 2^(e+1)]. *)
Definition exponent (q : Q) : Z :=
  let e := (Z.log2 (Qnum q) - Z.log2 (Zpos (Qden q)))%Z in
  if Qle_bool (pow2 e) q then e else (e - 1)%Z.

(** IEEE 754 binary64 round-to-nearest-even of a positive rational: 53
    significant bits, gradual underflow below [2^-1022], overflow to
    infinity from [2^1024] on. *)
Definition round64_pos (q : Q) : option Q :=
  let e := Z.max (exponent q) (-1022) in
  let ulp := pow2 (e - 52) in
  let r := (inject_Z (roundHalfEven (q / ulp)) * ulp)%Q in
  if Qle_bool (pow2 1024) r then None else Some (Qred r).

(** The Number value for a rational mathematical value. *)
Definition round64 (q : Q) : number :=
  match Qnum q with
  | Z0 => Fin 0%Q
  | Zpos _ => match round64_pos q with Some r => Fin r | None => PInf end
  | Zneg _ => match round64_pos (- q)%Q with Some r => Fin (- r)%Q | None => NInf end
  end.

(** [a < b] on Numbers: false as soon as one side is NaN. *)
Definition lt (a b : number) : bool :=
  match a, b with
  | NaN, _ | _, NaN => false
  | _, NInf => false
  | NInf, _ => true
  | PInf, _ => false
  | Fin _, PInf => true
  | Fin x, Fin y => negb (Qle_bool y x)
  end.

(** [a == b] on Numbers. *)
Definition eq (a b : number) : bool :=
  match a, b with
  | PInf, PInf | NInf, NInf => true
  | Fin x, Fin y => Qeq_bool x y
  | _, _ => false
  end.

(** [a >= b] on Numbers. *)
Definition ge (a b : number) : bool :=
  match a, b with
  | NaN, _ | _, NaN => false
  | _, _ => negb (lt a b)
  end.

Definition ofZ (n : Z) : number := Fin (inject_Z n).

(** *** [ToNumber] applied to a string (StringToNumber)

    [StrWhiteSpace? StrNumericLiteral? StrWhiteSpace?], where a
    [StrNumericLiteral] is a signed decimal literal with optional fraction
    and exponent, [Infinity] with an optional sign, or an unsigned
    [0x], [0o] or [0b] integer. Anything else is NaN. *)

Definition digitValue (base : Z) (c : ascii) : option Z :=
  let n := Z.of_N (N_of_ascii c) in
  let v := (if (48 <=? n) && (n <=? 57) then Some (n - 48)
            else if (97 <=? n) && (n <=? 102) then Some (n - 87)
            else if (65 <=? n) && (n <=? 70) then Some (n - 55)
            else None)%Z in
  match v with
  | Some d => if (d <? base)%Z then Some d else None
  | None => None
  end.

(** Reads the longest run of digits in [base] at the head of [s]: the value
    read on top of [acc], how many digits were read on top of [n], and the
    rest of the string. *)
Fixpoint readDigits (base : Z) (s : string) (acc : Z) (n : nat) : Z * nat * string :=
  match s with
  | EmptyString => (acc, n, s)
  | String c s' =>
      match digitValue base c with
      | Some d => readDigits base s' (base * acc + d)%Z (S n)
      | None => (acc, n, s)
      end
  end.

(** A whole string of one or more digits in [base]. *)
Definition wholeDigits (base : Z) (s : string) : option Z :=
  match readDigits base s 0 0 with
  | (v, S _, EmptyString) => Some v
  | _ => None
  end.

(** [NonDecimalIntegerLiteral] *)
Definition nonDecimalLiteral (s : string) : option Z :=
  match s with
  | String "0" (String p s') =>
      if Ascii.eqb p "x" || Ascii.eqb p "X" then wholeDigits 16 s'
      else if Ascii.eqb p "o" || Ascii.eqb p "O" then wholeDigits 8 s'
      else if Ascii.eqb p "b" || Ascii.eqb p "B" then wholeDigits 2 s'
      else None
  | _ => None
  end.

(** An optional sign: [true] for [-]. *)
Definition readSign (s : string) : bool * string :=
  match s with
  | String "+" s' => (false, s')
  | String "-" s' => (true, s')
  | _ => (false, s)
  end.

(** [ExponentPart?] up to the end of the string: the exponent. *)
Definition exponentPart (s : string) : option Z :=
  match s with
  | EmptyString => Some 0%Z
  | String c s' =>
      if Ascii.eqb c "e" || Ascii.eqb c "E" then
        let '(neg, s'') := readSign s' in
        match wholeDigits 10 s'' with
        | Some e => Some (if neg then - e else e)%Z
        | None => None
        end
      else None
  end.

(** [m * 10^e] *)
Definition scale10 (m e : Z) : Q :=
  if (0 <=? e)%Z then inject_Z (m * 10 ^ e) else m # Z.to_pos (10 ^ (- e)).

(** [StrUnsignedDecimalLiteral] other than [Infinity]: its mathematical
    value. *)
Definition unsignedDecimal (s : string) : option Q :=
  let '(i, ni, s1) := readDigits 10 s 0 0 in
  let '(m, nf, s2) :=
    match s1 with
    | String "." s1' => let '(m, nf, s2) := readDigits 10 s1' i 0 in (m, Some nf, s2)
    | _ => (i, None, s1)
    end in
  match ni, nf with
  | O, None | O, Some O => None
  | _, _ =>
      match exponentPart s2 with
      | Some e => Some (scale10 m (e - Z.of_nat (default O nf)))
      | None => None
      end
  end.

Definition negate (n : number) : number :=
  match n with
  | NaN => NaN
  | PInf => NInf
  | NInf => PInf
  | Fin q => Fin (- q)%Q
  end.

Definition StringToNumber (s : string) : number :=
  let t := trim s in
  match t with
  | EmptyString => Fin 0%Q
  | _ =>
      match nonDecimalLiteral t with
      | Some n => round64 (inject_Z n)
      | None =>
          let '(neg, u) := readSign t in
          let v := if String.eqb u "Infinity" then PInf
                   else match unsignedDecimal u with
                        | Some q => round64 q
                        | None => NaN
                        end in
          if neg then negate v else v
      end
  end.

End JS.

(** ** The script *)

(** [langPatterns]: canonical tag and pattern, in the order of the object
    literal, which is the order [for (var lang in langPatterns)] visits. *)
Definition langPatterns : list (string * JS.regex) :=
  [ ("c++",         JS.Seq (JS.Chr "c") (JS.Plus (JS.Chr "+")));       (* /c\++/ *)
    ("objective-c", JS.Seq (JS.Lit "objective")
                           (JS.Seq (JS.Star JS.Dot) (JS.Chr "c")));    (* /objective.*c/ *)
    ("go",          JS.Seq (JS.Lit "go") (JS.Alt JS.Eps (JS.Lit "lang"))); (* /go(|lang)/ *)
    ("python",      JS.Seq (JS.Lit "pyth") (JS.Star JS.Dot));          (* /pyth.*/ *)
    ("c#",          JS.Alt (JS.Lit "c#") (JS.Lit ".net")) ].           (* /(c#|\.net)/ *)

(** The loop of [parseLang] over the patterns. *)
Fixpoint parseLang_loop (x : string) (ps : list (string * JS.regex)) : string :=
  match ps with
  | [] => x
  | (lang, re) :: ps' => if JS.test re x then lang else parseLang_loop x ps'
  end.

(** [parseLang]: parse and normalize a programming language response. *)
Definition parseLang (x : string) : string :=
  let x := JS.toLowerCase (JS.trim x) in
  parseLang_loop x langPatterns.

(** *** Values, objects, the heap *)

(** The values a cell of a row holds before or after normalisation. *)
Inductive value : Type :=
| VUndefined                    (* what reading an absent property gives *)
| VNull
| VStr (s : string)
| VNum (n : JS.number)
| VList (l : list string)       (* an array of strings *)
| VDate (t : Z).                (* a valid [Date]: milliseconds since the epoch *)

Abbreviation obj := (gmap string value).

(** [o[k]] *)
Definition prop (o : obj) (k : string) : value := default VUndefined (o !! k).

Definition loc := nat.
Abbreviation heap := (gmap loc obj).

Inductive result (A : Type) : Type :=
| Return (a : A)
| Throw.                        (* a [TypeError] propagates *)
Arguments Return {A} a.
Arguments Throw {A}.

(** Computations that read and write the heap and may throw. *)
Definition M (A : Type) : Type := heap -> result (A * heap).

#[global] Instance M_ret : MRet M := fun A a h => Return (a, h).

#[global] Instance M_bind : MBind M := fun A B k m h =>
  match m h with
  | Return (a, h') => k a h'
  | Throw => Throw
  end.

(** [l.forEach(f)] *)
Fixpoint forEach {A} (l : list A) (f : A -> M unit) : M unit :=
  match l with
  | [] => mret tt
  | x :: l' => f x ;; forEach l' f
  end.

(** [ToNumber]; an array goes through its [join(",")]. *)
Definition ToNumber (v : value) : JS.number :=
  match v with
  | VUndefined => JS.NaN
  | VNull => JS.Fin 0
  | VStr s => JS.StringToNumber s
  | VNum n => n
  | VList l => JS.StringToNumber (JS.join "," l)
  | VDate t => JS.ofZ t
  end.

(** [v == n] for a Number [n]. A [Date] prefers its string form here, and
    that is no numeric literal. *)
Definition looseEq (v : value) (n : JS.number) : bool :=
  match v with
  | VUndefined | VNull | VDate _ => false
  | _ => JS.eq (ToNumber v) n
  end.

(** *** Schema registry *)

(** A mapping of short convenient keys to the full survey question as found
    in the CSV header field. *)
Module fields.
Definition beliefs := "How would you categorize your beliefs?".
Definition churchatt := "How often do you voluntarily attend religious services?".
Definition superexst := "Supernatural forces exist which cannot be directly addressed by science".
Definition superpers := "I have personally had a supernatural spiritual experience".
Definition godrelate := "We can relate to God personally, as opposed to an impersonal force".
Definition godspeaks := "God communicates to people in ways we can clearly understand".
Definition bibletrue := "Holy scriptures are a reliable source of divine truth".
Definition bibleusfl := "Holy scriptures are a reliable source of practical guidance for everyday life".
Definition divpunish := "Unrighteousness or wrongdoing will be punished in the afterlife".
Definition divreward := "Righteousness is rewarded in the afterlife".
Definition universal := "All people will eventually be reconciled with or joined to God".
Definition humangood := "Human beings are basically or inherently good".
Definition suffersin := "Human suffering in this life is caused by sin or unrighteousness".
Definition humancrea := "Human beings were specially created in their present form, apart from natural processes".
Definition naturcrea := "Naturalistic theories are insufficient to account for the origin and complexity of life".
Definition favlang := "What is your favorite programming language?".
Definition worklangs := "What is your primary programming language used at work (if any)?".
Definition progyears := "How many years have you been programming?".
Definition workyears := "How many years have you been programming professionally?".
Definition maxeducat := "How would you describe your education?".
Definition feedback := "Feedback".
End fields.

(** These fields allowed multiple responses and will be parsed accordingly. *)
Definition multiValuedFields : list string := [fields.beliefs; fields.worklangs].

(** Fields from the statement section of the survey. Responses ranged from 1
    (strongly disagree) to 5 (strongly agree), with 0 indicating no
    response. *)
Definition statements : list string :=
  [ fields.superexst; fields.superpers; fields.godrelate; fields.godspeaks;
    fields.bibletrue; fields.bibleusfl; fields.divpunish; fields.divreward;
    fields.universal; fields.humangood; fields.suffersin; fields.humancrea;
    fields.naturcrea ].

Definition otherNums : list string := [fields.progyears; fields.workyears].

Definition numericFields : list string := statements ++ otherNums.

(** Religions that were represented in the respondents' beliefs. *)
Definition religions : list string :=
  ["Christian"; "Buddhist"; "Jewish"; "Muslim"; "Pagan"; "Hindu"].

(** [religions.has(x)] *)
Definition religions_has (x : string) : bool := existsb (String.eqb x) religions.

(** Labels that indicate a particular leaning. *)
Definition qualitativeModifiers : list string := ["Liberal"; "Moderate"; "Conservative"].

(** *** Predicates *)

(** [predicates.isReligious]: only an array has [some]. *)
Definition isReligious (d : obj) : result bool :=
  match prop d fields.beliefs with
  | VList l => Return (existsb religions_has l)
  | _ => Throw
  end.

(** [predicates.makeHasOpinion] *)
Definition makeHasOpinion (belief : string) : obj -> bool :=
  fun d => JS.lt (JS.Fin 0) (ToNumber (prop d belief)).

(** *** Normalisation *)

(** [obj[field] = f(obj[field])], on the object that [o] refers to. *)
Definition update (o : loc) (field : string) (f : value -> result value) : M unit :=
  fun h =>
    match h !! o with
    | None => Throw
    | Some r =>
        match f (prop r field) with
        | Return v => Return (tt, <[o := <[field := v]> r]> h)
        | Throw => Throw
        end
    end.

(** The write of [update] on the content of the object. *)
Definition updated (field : string) (f : value -> result value) (r : obj) : result obj :=
  match f (prop r field) with
  | Return v => Return (<[field := v]> r)
  | Throw => Throw
  end.

(** The writes of [fs.forEach(function (field) { update(d, field, f); })] on
    the content of the object. *)
Fixpoint updatedEach (fs : list string) (f : value -> result value) (r : obj) : result obj :=
  match fs with
  | [] => Return r
  | field :: fs' =>
      match updated field f r with
      | Return r' => updatedEach fs' f r'
      | Throw => Throw
      end
  end.

(** The separator [/[;,]/] *)
Definition listSeparator (c : ascii) : bool := Ascii.eqb c ";" || Ascii.eqb c ",".

(** [parseList]: splits a multi-valued string field into its constituent
    parts. Only a string has [split]. *)
Definition parseList (str : value) : result value :=
  match str with
  | VStr s => Return (VList (JS.split listSeparator s))
  | _ => Throw
  end.

(** [parseLang] as [update] calls it: only a string has [trim]. *)
Definition parseLang_value (x : value) : result value :=
  match x with
  | VStr s => Return (VStr (parseLang s))
  | _ => Throw
  end.

(** The columns of the data file: the time of the response and the
    questions. *)
Definition columns : list string :=
  [ "Timestamp"; fields.beliefs; fields.churchatt; fields.superexst;
    fields.superpers; fields.godrelate; fields.godspeaks; fields.bibletrue;
    fields.bibleusfl; fields.divpunish; fields.divreward; fields.universal;
    fields.humangood; fields.suffersin; fields.humancrea; fields.naturcrea;
    fields.favlang; fields.worklangs; fields.progyears; fields.workyears;
    fields.maxeducat; fields.feedback ].

(** A raw record, as the loader hands it to [parseRow]: every column of the
    data file is there and holds a string. *)
Definition isRawRecord (r : obj) : bool :=
  forallb (fun k => match r !! k with Some (VStr _) => true | _ => false end) columns.

(** The fields that [parseRow] writes. *)
Definition touched : list string :=
  multiValuedFields ++ numericFields ++ ["Timestamp"; fields.favlang].

(** *** Ordered objects: the accumulator of the cross-tabulation

    An object keeps its own properties in insertion order, and enumerates
    the keys that are array indices first, in ascending order. *)
Module Obj.
Definition t (A : Type) : Type := list (string * A).

Fixpoint get {A} (m : t A) (k : string) : option A :=
  match m with
  | [] => None
  | (k', a) :: m' => if String.eqb k k' then Some a else get m' k
  end.

(** [m[k] = a]: in place when [k] is there, else as the last property. *)
Fixpoint set {A} (m : t A) (k : string) (a : A) : t A :=
  match m with
  | [] => [(k, a)]
  | (k', a') :: m' => if String.eqb k k' then (k', a) :: m' else (k', a') :: set m' k a
  end.

(** The array index that [k] spells: a canonical decimal numeral below
    [2^32 - 1]. *)
Definition arrayIndex (k : string) : option Z :=
  match k with
  | String "0" EmptyString => Some 0%Z
  | String "0" _ => None
  | _ => match JS.wholeDigits 10 k with
         | Some n => if (n <? 2 ^ 32 - 1)%Z then Some n else None
         | None => None
         end
  end.

Fixpoint insertIndex {A} (i : Z) (e : string * A) (l : list (Z * (string * A))) :=
  match l with
  | [] => [(i, e)]
  | (j, e') :: l' => if (i <? j)%Z then (i, e) :: l else (j, e') :: insertIndex i e l'
  end.

(** The entries whose key is an array index, ascending. *)
Fixpoint indexed {A} (m : t A) : list (Z * (string * A)) :=
  match m with
  | [] => []
  | (k, a) :: m' =>
      match arrayIndex k with
      | Some i => insertIndex i (k, a) (indexed m')
      | None => indexed m'
      end
  end.

(** The entries in the order [for (key in m)] visits them. *)
Definition entries {A} (m : t A) : list (string * A) :=
  (map snd (indexed m) ++ List.filter (fun e => bool_decide (arrayIndex e.1 = None)) m)%list.
End Obj.

(** A key that a plain object resolves through [Object.prototype] to
    something that is not one of the script's count arrays. The script
    keeps that member, [d3.sum] of it is 0, and the language never gets
    past the filter: such a response adds no entry. *)
Definition inheritedKey (k : string) : bool :=
  existsb (String.eqb k)
    [ "constructor"; "__proto__"; "toString"; "toLocaleString"; "valueOf";
      "hasOwnProperty"; "isPrototypeOf"; "propertyIsEnumerable";
      "__defineGetter__"; "__defineSetter__"; "__lookupGetter__"; "__lookupSetter__" ].

(** [Array.prototype.sort], stable as ECMAScript 2019 requires: [a] stays
    before [b] unless the comparator returns something above zero. The
    comparator's NaN counts as zero. *)
Definition above0 (n : JS.number) : bool := JS.lt (JS.Fin 0) n.

Fixpoint sortInsert {A} (cmp : A -> A -> JS.number) (a : A) (l : list A) : list A :=
  match l with
  | [] => [a]
  | b :: l' => if above0 (cmp a b) then b :: sortInsert cmp a l' else a :: l
  end.

Fixpoint sort {A} (cmp : A -> A -> JS.number) (l : list A) : list A :=
  match l with
  | [] => []
  | a :: l' => sortInsert cmp a (sort cmp l')
  end.

(** [d3.descending] *)
Definition d3_descending (a b : JS.number) : JS.number :=
  if JS.lt b a then JS.Fin (-1)
  else if JS.lt a b then JS.Fin 1
  else if JS.ge b a then JS.Fin 0
  else JS.NaN.

(** [d3.sum] of an array of counts *)
Definition d3_sum (l : list Z) : Z := fold_right Z.add 0%Z l.

(** [x / sum] on two counts. Counts are lengths of arrays at most, so they
    are exact Numbers; the quotient is rounded. *)
Definition divide (x s : Z) : JS.number :=
  if (s =? 0)%Z then (if (x =? 0)%Z then JS.NaN else if (0 <? x)%Z then JS.PInf else JS.NInf)
  else JS.round64 (inject_Z x / inject_Z s)%Q.

(** [x * 100] *)
Definition times100 (x : JS.number) : JS.number :=
  match x with
  | JS.Fin q => JS.round64 (q * 100)%Q
  | _ => x
  end.

(** *** The page *)

(** A row of the agreement table: the datum bound to the [div], the three
    bars with their class index and width in pixels, and the label. *)
Record langDiv : Type := {
  datum : string * list JS.number;
  bars : list (nat * JS.number);
  label : string
}.

(** What the script appends to [#viz-area]. *)
Inductive element : Type :=
| svg (width height : Z) (paths : list string)
| section (divs : list langDiv).

(** What the script takes from the browser and from d3. *)
Class Host : Type := {
  (** [timeFormat.parse] on a string, for
      [timeFormat = d3.time.format("%Y/%m/%d %I:%M:%S %p AST")]: the date, or
      [null] for a string that is not in the format. *)
  timeFormat_parse : string -> option Z;
  (** [Number.prototype.toString] and [Date.prototype.toString], which a
      Number or a [Date] used as a property key goes through. *)
  NumberToString : JS.number -> string;
  DateToString : Z -> string;
  (** [d3.layout.stack] and [d3.svg.area] over the nested groups: the [d]
      attribute of each layer's path, unless the layout throws. *)
  layout : list (string * list obj) -> result (list string)
}.

Section Script.
Context `{host : Host}.

(** [timeFormat.parse(x)]: it reads [x.length], then slices [x]. *)
Definition timeFormat_parse_value (x : value) : result value :=
  match x with
  | VStr s => Return (match timeFormat_parse s with Some t => VDate t | None => VNull end)
  | VList [] => Return VNull
  | _ => Throw
  end.

(** [parseRow] *)
Definition parseRow (d : loc) : M loc :=
  forEach multiValuedFields (fun field => update d field parseList) ;;
  forEach numericFields (fun field => update d field (fun x => Return (VNum (ToNumber x)))) ;;
  update d "Timestamp" timeFormat_parse_value ;;
  update d fields.favlang parseLang_value ;;
  mret d.

(** The writes of [parseRow] on the content of the object. *)
Definition parseRow_content (r : obj) : result obj :=
  match updatedEach multiValuedFields parseList r with
  | Throw => Throw
  | Return r1 =>
      match updatedEach numericFields (fun x => Return (VNum (ToNumber x))) r1 with
      | Throw => Throw
      | Return r2 =>
          match updated "Timestamp" timeFormat_parse_value r2 with
          | Throw => Throw
          | Return r3 => updated fields.favlang parseLang_value r3
          end
      end
  end.

(** [parseRow] on the content of a fresh object: what the row holds when
    [parseRow] is done with it. *)
Definition normalized (r : obj) : result obj :=
  match parseRow 0 {[ 0 := r ]} with
  | Return (d, h) => match h !! d with Some r' => Return r' | None => Throw end
  | Throw => Throw
  end.

(** [ToString], for a value used as a property key. *)
Definition ToString (v : value) : string :=
  match v with
  | VUndefined => "undefined"
  | VNull => "null"
  | VStr s => s
  | VNum n => NumberToString n
  | VList l => JS.join "," l
  | VDate t => DateToString t
  end.

(** [bin] in [renderAgreementTable]: 0 to disagree, 1 for neutral, 2 to
    agree. *)
Definition binOf (beliefValue : value) : nat :=
  if looseEq beliefValue (JS.Fin 3) then 1
  else if JS.lt (ToNumber beliefValue) (JS.Fin 3) then 0 else 2.

(** The body of the [reduce] in [renderAgreementTable]. *)
Definition tally (belief favlang : string) (m : Obj.t (list Z)) (row : obj) : Obj.t (list Z) :=
  let beliefValue := prop row belief in
  let lang := ToString (prop row favlang) in
  if inheritedKey lang then m else
  let m := Obj.set m lang (default [0; 0; 0]%Z (Obj.get m lang)) in
  let bin := binOf beliefValue in
  Obj.set m lang (alter Z.succ bin (default [] (Obj.get m lang))).

(** [stats] in [renderAgreementTable] *)
Definition stats (rows : list obj) : Obj.t (list Z) :=
  fold_left (tally fields.humangood fields.favlang)
            (List.filter (makeHasOpinion fields.humangood) rows) [].

(** [data] in [renderAgreementTable], once filtered and normalised *)
Definition data (rows : list obj) : list (string * list JS.number) :=
  let data := Obj.entries (stats rows) in
  (* filter out unpopular langs *)
  let data := List.filter (fun d => (3 <? d3_sum d.2)%Z) data in
  (* normalize it *)
  map (fun d => let sum := d3_sum d.2 in (d.1, map (fun x => divide x sum) d.2)) data.

(** The [div] entered for one datum, with its spans. *)
Definition enterDiv (d : string * list JS.number) : langDiv :=
  {| datum := d;
     bars := imap (fun i x => (i, times100 x)) d.2;
     label := d.1 |}.

(** The value at index 2 of a datum; [undefined] compares as NaN. *)
Definition agree (d : string * list JS.number) : JS.number := default JS.NaN (d.2 !! 2).

(** [renderAgreementTable]: the [section] appended to the container, its
    rows in the order [langDiv.sort] leaves them in. *)
Definition renderAgreementTable (rows : list obj) (container : list element) : list element :=
  let langDiv := map enterDiv (data rows) in
  let langDiv := sort (fun a b => d3_descending (agree (datum a)) (agree (datum b))) langDiv in
  (container ++ [section langDiv])%list.

(** [d3.nest().key(predicates.isReligious)]: the rows grouped under the
    string form of the key, groups in order of first appearance. *)
Fixpoint nest (rows : list obj) : result (Obj.t (list obj)) :=
  match rows with
  | [] => Return []
  | d :: rows' =>
      match isReligious d, nest rows' with
      | Return b, Return g =>
          let k := if b then "true" else "false" in
          Return ((k, d :: default [] (Obj.get g k)) :: List.filter (fun e => negb (String.eqb e.1 k)) g)
      | _, _ => Throw
      end
  end.

(** [renderResponseStream]: an [svg] with one [path] per group. *)
Definition renderResponseStream (rows : list obj) (container : list element)
  : result (list element) :=
  match nest rows with
  | Return groupings =>
      match layout groupings with
      | Return paths => Return (container ++ [svg 960 400 paths])%list
      | Throw => Throw
      end
  | Throw => Throw
  end.

(** The handler given to [d3.csv]: [rows] is [undefined] when the load
    failed. What it writes to the console and to [window.rows] is left
    out. *)
Definition callback (error : option string) (rows : option (list obj))
    (container : list element) : result (list element) :=
  match rows with
  | Some rows => renderResponseStream rows container
  | None => Return container
  end.

End Script.

(** ** Sample data *)

(** A row of the data file with the given time stamp, beliefs, answer to the
    [humangood] statement and favourite language, every other column empty. *)
Definition rawRow (timestamp beliefs humangood favlang : string) : obj :=
  <["Timestamp" := VStr timestamp]>
    (<[fields.beliefs := VStr beliefs]>
       (<[fields.humangood := VStr humangood]>
          (<[fields.favlang := VStr favlang]>
             (list_to_map (map (fun k => (k, VStr "")) columns))))).

(** A host for the examples: its time parser knows the time stamp quoted in
    the script, read in a browser whose zone is UTC; a Number or a date used
    as a key prints as a fixed word; the layout labels each path with the
    key of its group. *)
#[global] Instance sampleHost : Host := {|
  timeFormat_parse s :=
    if String.eqb s "2014/04/25 11:44:09 AM AST" then Some 1398426249000%Z else None;
  NumberToString _ := "number";
  DateToString _ := "date";
  layout groupings := Return (map fst groupings)
|}.

(** Characters a numeric literal can start with: a digit, a sign, the
    decimal point, or the [I] of [Infinity]. *)
Definition startsLiteral (c : ascii) : bool :=
  match JS.digitValue 10 c with
  | Some _ => true
  | None => existsb (Ascii.eqb c) ["+"; "-"; "."; "I"]%char
  end.

(** The four rows of the worked example, and four more for a second
    language. *)
Definition exampleRaws : list obj :=
  [ rawRow "2014/04/25 11:44:09 AM AST" "Christian;Liberal" "4" "Go";
    rawRow "2014/04/25 11:44:09 AM AST" "Atheist" "2" "Go";
    rawRow "2014/04/25 11:44:09 AM AST" "Christian" "3" "Go";
    rawRow "2014/04/25 11:44:09 AM AST" "Christian" "5" "Go" ].

Definition moreRaws : list obj :=
  [ rawRow "2014/04/25 11:44:09 AM AST" "Agnostic" "5" " Ruby";
    rawRow "2014/04/25 11:44:09 AM AST" "Atheist" "4" "ruby";
    rawRow "2014/04/25 11:44:09 AM AST" "Buddhist" "5" "Ruby ";
    rawRow "2014/04/25 11:44:09 AM AST" "Atheist" "1" "RUBY" ].

(** The rows that the loader gives to the handler, on the sample host: the
    records that [parseRow] returned. *)
Definition loaded (raws : list obj) : list obj :=
  omap (fun r => match normalized r with Return n => Some n | Throw => None end) raws.

(** ** Notions used in the statements *)

(** How many of the rows that have an opinion on the [humangood] statement
    name [lang] as favourite language and fall in [bin]. *)
Definition counted `{Host} (rows : list obj) (lang : string) (bin : nat) : Z :=
  Z.of_nat (length
    (List.filter
       (fun row => String.eqb (ToString (prop row fields.favlang)) lang
                   && Nat.eqb (binOf (prop row fields.humangood)) bin)
       (List.filter (makeHasOpinion fields.humangood) rows))).

(** A raw record with the given beliefs, answer to the [humangood]
    statement and favourite language. *)
Definition answers (r : obj) (beliefs humangood favlang : string) : Prop :=
  isRawRecord r = true /\
  r !! fields.beliefs = Some (VStr beliefs) /\
  r !! fields.humangood = Some (VStr humangood) /\
  r !! fields.favlang = Some (VStr favlang).

(** Three counts: what [stats] holds for a language. *)
Definition counts3 (v : list Z) : Prop :=
  exists a b c : Z, v = [a; b; c] /\ (0 <= a)%Z /\ (0 <= b)%Z /\ (0 <= c)%Z.

(** An accumulator of the cross-tabulation: one property for each
    language, holding three counts. *)
Definition tallies (m : Obj.t (list Z)) : Prop :=
  NoDup (map fst m) /\ Forall (fun e => counts3 e.2) m.

(** ** Notions used in the further properties *)

(** [needle] occurs in [s]. *)
Definition occurs (needle s : string) : Prop :=
  exists a b, s = a +:+ needle +:+ b.

(** The characters of a string. *)
Fixpoint chars (s : string) : list ascii :=
  match s with
  | EmptyString => []
  | String c s' => c :: chars s'
  end.

(** [a] occurs in [s] and [b] after it, with no line terminator between the
    two. *)
Definition occursOnLine (a b s : string) : Prop :=
  exists pre m post,
    s = pre +:+ a +:+ m +:+ b +:+ post /\
    Forall (fun c => JS.isLineTerminator c = false) (chars m).


(** ** The helpers that the page does not call *)

(** What [counts] holds under a key: how often the value has appeared, or a
    text, for a key that a plain object inherits. *)
Inductive countCell : Type :=
| Count (n : Z)
| Text (s : string).

(** [a + b] on Numbers. *)
Definition number_add (a b : JS.number) : JS.number :=
  match a, b with
  | JS.NaN, _ | _, JS.NaN => JS.NaN
  | JS.PInf, JS.NInf | JS.NInf, JS.PInf => JS.NaN
  | JS.PInf, _ | _, JS.PInf => JS.PInf
  | JS.NInf, _ | _, JS.NInf => JS.NInf
  | JS.Fin x, JS.Fin y => JS.round64 (x + y)%Q
  end.

Section Helpers.
Context `{host : Host}.

(** The text that [Function.prototype.toString] gives for the member of
    [Object.prototype] with this name. *)
Variable memberText : string -> string.

(** The body of the [reduce] in [counts]: [m[x] = (m[x] || 0) + 1]. Under
    an inherited key the object finds a function, and a function plus 1 is
    a text; [__proto__] finds the prototype, and assigning a text to it
    does nothing. *)
Definition countOne (m : Obj.t countCell) (x : value) : Obj.t countCell :=
  let k := ToString x in
  match Obj.get m k with
  | Some (Count n) => Obj.set m k (Count (n + 1))
  | Some (Text s) =>
      if String.eqb s EmptyString then Obj.set m k (Count 1)
      else Obj.set m k (Text (s +:+ "1"))
  | None =>
      if String.eqb k "__proto__" then m
      else if inheritedKey k then Obj.set m k (Text (memberText k +:+ "1"))
      else Obj.set m k (Count 1)
  end.

(** [counts]: returns a map of values to the number of times they appear in
    the array. *)
Definition counts (values : list value) : Obj.t countCell :=
  fold_left countOne values [].

(** [a + v] for a Number [a]: a sum of Numbers, or, when [v] is a string,
    an array or a date, the two as strings, one after the other. *)
Definition plus (a : JS.number) (v : value) : value :=
  match v with
  | VUndefined => VNum JS.NaN
  | VNull => VNum (number_add a (JS.Fin 0))
  | VNum b => VNum (number_add a b)
  | VStr s => VStr (NumberToString a +:+ s)
  | VList l => VStr (NumberToString a +:+ JS.join "," l)
  | VDate t => VStr (NumberToString a +:+ DateToString t)
  end.

(** The loop of [runningTotal] from some index on; [before] is the element
    at the index before, if there is one. The accessor reads the element
    and returns a Number. *)
Fixpoint runningTotal_loop (accessor : obj -> JS.number) (before : option loc)
    (elements : list loc) : M unit :=
  match elements with
  | [] => mret tt
  | x :: rest =>
      (fun h : heap =>
         match h !! x with
         | None => Throw
         | Some r =>
             let prev := match before with
                         | None => VNum (JS.Fin 0)
                         | Some p => prop (default ∅ (h !! p)) "runningTotal"
                         end in
             Return (tt, <[x := <["runningTotal" := plus (accessor r) prev]> r]> h)
         end) ;;
      runningTotal_loop accessor (Some x) rest
  end.

(** [runningTotal] *)
Definition runningTotal (elements : list loc) (accessor : obj -> JS.number) : M unit :=
  runningTotal_loop accessor None elements.

End Helpers.

(** How often [k] is the key of a value of the list. *)
Definition occurrences `{Host} (values : list value) (k : string) : Z :=
  Z.of_nat (length (List.filter (fun x => String.eqb (ToString x) k) values)).

(** The count that an object of [counts] holds under [k], 0 if none. *)
Definition countOf (m : Obj.t countCell) (k : string) : Z :=
  match Obj.get m k with Some (Count n) => n | _ => 0%Z end.

(** The counts that an object of [counts] holds, added up. *)
Definition totalCount (m : Obj.t countCell) : Z :=
  fold_right (fun e acc => match e.2 with Count n => n + acc | Text _ => acc end)%Z 0%Z m.

(** The running totals of a list of Numbers: each Number plus the total
    before it, starting from 0. *)
Fixpoint totalsFrom (prev : JS.number) (l : list JS.number) : list JS.number :=
  match l with
  | [] => []
  | a :: l' => number_add a prev :: totalsFrom (number_add a prev) l'
  end.

(** The text of a built-in function, as the engines print it. *)
Definition nativeText (k : string) : string := "function " +:+ k +:+ "() { [native code] }".

(** An accessor: the [count] of the element, as a Number. *)
Definition countOfElement (r : obj) : JS.number := ToNumber (prop r "count").

(** Two elements, with counts 2 and 3. *)
Definition twoElements : heap :=
  <[1 := {[ "count" := VNum (JS.Fin 2) ]}]> {[ 2 := {[ "count" := VNum (JS.Fin 3) ]} ]}.

(** * Properties *)

(** ** Strings *)

Module JSFacts.
Import JS.

Lemma lowerChar_idem c : lowerChar (lowerChar c) = lowerChar c.
Proof. destruct c as [[] [] [] [] [] [] [] []]; reflexivity. Qed.

Lemma isWhiteSpace_lowerChar c : isWhiteSpace (lowerChar c) = isWhiteSpace c.
Proof. destruct c as [[] [] [] [] [] [] [] []]; reflexivity. Qed.

Lemma toLowerCase_idem s : toLowerCase (toLowerCase s) = toLowerCase s.
Proof. induction s as [|c s IH]; simpl; [reflexivity|]. now rewrite lowerChar_idem, IH. Qed.

Lemma trimStart_toLowerCase s : trimStart (toLowerCase s) = toLowerCase (trimStart s).
Proof.
  induction s as [|c s IH]; simpl; [reflexivity|].
  rewrite isWhiteSpace_lowerChar. destruct (isWhiteSpace c); [exact IH | reflexivity].
Qed.

Lemma trimEnd_toLowerCase s : trimEnd (toLowerCase s) = toLowerCase (trimEnd s).
Proof.
  induction s as [|c s IH]; simpl; [reflexivity|].
  rewrite IH, isWhiteSpace_lowerChar.
  destruct (trimEnd s); simpl; [destruct (isWhiteSpace c)|]; reflexivity.
Qed.

Lemma trim_toLowerCase s : trim (toLowerCase s) = toLowerCase (trim s).
Proof. unfold trim. now rewrite trimStart_toLowerCase, trimEnd_toLowerCase. Qed.

Lemma trimEnd_idem s : trimEnd (trimEnd s) = trimEnd s.
Proof.
  induction s as [|c s IH]; simpl; [reflexivity|].
  destruct (trimEnd s) as [|c' t] eqn:E.
  - destruct (isWhiteSpace c) eqn:W; simpl; [reflexivity | now rewrite W].
  - change (trimEnd (String c (String c' t))) with
      (match trimEnd (String c' t) with
       | EmptyString => if isWhiteSpace c then EmptyString else String c EmptyString
       | u => String c u
       end).
    now rewrite IH.
Qed.

(** A string that starts with something else than white space keeps its
    first character under [trimEnd]. *)
Lemma trimEnd_head c s :
  isWhiteSpace c = false -> exists u, trimEnd (String c s) = String c u.
Proof.
  intros W. simpl. destruct (trimEnd s); [rewrite W|]; eauto.
Qed.

Lemma trimStart_head s :
  trimStart s = EmptyString \/
  exists c u, trimStart s = String c u /\ isWhiteSpace c = false.
Proof.
  induction s as [|c s IH]; simpl; [now left|].
  destruct (isWhiteSpace c) eqn:W; [exact IH | right; eauto].
Qed.

(** What [trim] returns is empty or starts with something else than white
    space. *)
Lemma trim_head s :
  trim s = EmptyString \/ exists c u, trim s = String c u /\ isWhiteSpace c = false.
Proof.
  unfold trim. destruct (trimStart_head s) as [E | (c & u & E & W)]; rewrite E.
  - now left.
  - right. destruct (trimEnd_head c u W) as [u' E']. eauto.
Qed.

Lemma trimStart_trim s : trimStart (trim s) = trim s.
Proof.
  destruct (trim_head s) as [E | (c & u & E & W)]; rewrite E; simpl; [reflexivity|].
  now rewrite W.
Qed.

Lemma trim_idem s : trim (trim s) = trim s.
Proof.
  unfold trim at 1. rewrite trimStart_trim. unfold trim. apply trimEnd_idem.
Qed.

End JSFacts.

(** ** Patterns: the matcher finds what the pattern matches *)

Module RegexFacts.
Import JS.

Lemma append_nil_l s : "" +:+ s = s.
Proof. reflexivity. Qed.

Lemma append_cons c s t : String c s +:+ t = String c (s +:+ t).
Proof. reflexivity. Qed.

Lemma append_eq_nil s1 s2 : s1 +:+ s2 = "" -> s1 = "" /\ s2 = "".
Proof. destruct s1; rewrite ?append_cons, ?append_nil_l; [auto | discriminate]. Qed.

Ltac simpl_append := rewrite ?append_cons, ?append_nil_l in *.

Lemma nullable_matches r : nullable r = true <-> matches r "".
Proof.
  split.
  - induction r; simpl; intros H; try discriminate.
    + constructor.
    + apply andb_prop in H as [H1 H2].
      change "" with ("" +:+ ""). constructor; auto.
    + apply orb_prop in H as [H | H]; [apply matches_Alt_l | apply matches_Alt_r]; auto.
    + constructor.
  - intros H. remember "" as s eqn:E. induction H; simpl; try discriminate; try reflexivity.
    + apply append_eq_nil in E as [-> ->]. rewrite IHmatches1, IHmatches2; reflexivity.
    + rewrite IHmatches by exact E. reflexivity.
    + rewrite IHmatches by exact E. apply orb_true_r.
Qed.

(** A string of [r*] that starts with [c] starts with a string of [r] that
    starts with [c]. *)
Lemma matches_Star_cons r c s :
  matches (Star r) (String c s) ->
  exists s1 s2, s = s1 +:+ s2 /\ matches r (String c s1) /\ matches (Star r) s2.
Proof.
  intros H. remember (Star r) as r' eqn:Er. remember (String c s) as t eqn:Et.
  induction H; try discriminate.
  inversion Er; subst r0. destruct s1 as [|c' s1]; simpl_append.
  - apply IHmatches2; [reflexivity | exact Et].
  - inversion Et; subst. eauto.
Qed.

Lemma deriv_matches c r : forall s, matches (deriv c r) s <-> matches r (String c s).
Proof.
  induction r as [| |c'| |r1 IH1 r2 IH2|r1 IH1 r2 IH2|r IH]; intros s; simpl.
  - split; intros H; inversion H.
  - split; intros H; inversion H.
  - destruct (Ascii.eqb_spec c c') as [<- | N]; split; intros H; inversion H; subst.
    + constructor.
    + constructor.
    + contradiction.
  - destruct (isLineTerminator c) eqn:E; split; intros H; inversion H; subst.
    + congruence.
    + now constructor.
    + constructor.
  - assert (L : matches (Seq (deriv c r1) r2) s -> matches (Seq r1 r2) (String c s)).
    { intros H. inversion H; subst.
      change (String c (s1 +:+ s2)) with (String c s1 +:+ s2).
      constructor; [now apply IH1 | assumption]. }
    assert (R : matches (Seq r1 r2) (String c s) ->
                matches (Seq (deriv c r1) r2) s \/ (matches r1 "" /\ matches (deriv c r2) s)).
    { intros H. inversion H as [| | |? ? s1 s2 H1 H2 E1 E2| | | |]; subst.
      destruct s1 as [|c' s1]; simpl_append.
      - right. split; [assumption|]. apply IH2. now rewrite <- E2.
      - inversion E2; subst. left. constructor; [now apply IH1 | assumption]. }
    destruct (nullable r1) eqn:N; split; intros H.
    + inversion H; subst; [now apply L|].
      change (String c s) with ("" +:+ String c s).
      constructor; [now apply nullable_matches | now apply IH2].
    + destruct (R H) as [H' | [_ H']]; [now apply matches_Alt_l | now apply matches_Alt_r].
    + now apply L.
    + destruct (R H) as [H' | [H' _]]; [exact H'|].
      apply nullable_matches in H'. congruence.
  - split; intros H; inversion H; subst.
    + apply matches_Alt_l. now apply IH1.
    + apply matches_Alt_r. now apply IH2.
    + apply matches_Alt_l. now apply IH1.
    + apply matches_Alt_r. now apply IH2.
  - split; intros H.
    + inversion H; subst.
      change (String c (s1 +:+ s2)) with (String c s1 +:+ s2).
      constructor; [now apply IH | assumption].
    + apply matches_Star_cons in H as (s1 & s2 & -> & H1 & H2).
      constructor; [now apply IH | assumption].
Qed.

(** [matchesAt] finds a match at the start of the string. *)
Lemma matchesAt_spec s : forall r,
  matchesAt r s = true <-> exists p q, s = p +:+ q /\ matches r p.
Proof.
  induction s as [|c s IH]; intros r; simpl.
  - rewrite orb_false_r, nullable_matches. split.
    + intros H. now exists "", "".
    + intros (p & q & E & H). symmetry in E. apply append_eq_nil in E as [-> _]. exact H.
  - rewrite orb_true_iff, nullable_matches, IH. split.
    + intros [H | (p & q & -> & H)].
      * now exists "", (String c s).
      * exists (String c p), q. split; [reflexivity | now apply deriv_matches].
    + intros (p & q & E & H). destruct p as [|c' p]; simpl_append.
      * now left.
      * inversion E; subst. right. exists p, q. split; [reflexivity | now apply deriv_matches].
Qed.

(** [test] finds a match anywhere in the string. *)
Theorem test_spec r s :
  test r s = true <-> exists a p b, s = a +:+ p +:+ b /\ matches r p.
Proof.
  induction s as [|c s IH].
  - change (test r "") with (matchesAt r "" || false).
    rewrite orb_false_r, matchesAt_spec. split.
    + intros (p & q & E & H). now exists "", p, q.
    + intros (a & p & b & E & H). symmetry in E.
      apply append_eq_nil in E as [-> E]. now exists p, b.
  - change (test r (String c s)) with (matchesAt r (String c s) || test r s).
    rewrite orb_true_iff, matchesAt_spec, IH. split.
    + intros [(p & q & E & H) | (a & p & b & -> & H)].
      * exists "", p, q. split; [exact E | exact H].
      * exists (String c a), p, b. split; [reflexivity | exact H].
    + intros (a & p & b & E & H). destruct a as [|c' a]; simpl_append.
      * left. now exists p, b.
      * inversion E; subst. right. now exists a, p, b.
Qed.

End RegexFacts.

(** ** [parseLang] *)

(** The lower-cased, trimmed response is left as it is by a second
    lower-casing and trimming. *)
Lemma toLowerCase_trim_fixed x :
  JS.toLowerCase (JS.trim (JS.toLowerCase (JS.trim x))) = JS.toLowerCase (JS.trim x).
Proof.
  now rewrite JSFacts.trim_toLowerCase, JSFacts.trim_idem, JSFacts.toLowerCase_idem.
Qed.

(** The loop returns a tag of the table or its argument. *)
Lemma parseLang_loop_cases x ps :
  In (parseLang_loop x ps) (map fst ps) \/ parseLang_loop x ps = x.
Proof.
  induction ps as [|[lang re] ps IH]; simpl; [now right|].
  destruct (JS.test re x); [now left; left|].
  destruct IH as [IH | IH]; [left; now right | now right].
Qed.

(** No pattern matches: the loop falls through. *)
Lemma parseLang_loop_unmatched x ps :
  forallb (fun p => negb (JS.test p.2 x)) ps = true -> parseLang_loop x ps = x.
Proof.
  induction ps as [|[lang re] ps IH]; simpl; [reflexivity|].
  intros H. apply andb_prop in H as [H1 H2].
  apply negb_true_iff in H1. rewrite H1. auto.
Qed.

(** C5: the four example responses: [Golang], [Python 3] and [C++11] with
    leading blanks map to their canonical tags, and [Ruby], which no
    pattern matches, passes through lower-cased. *)
Theorem parseLang_examples :
  parseLang "Golang" = "go" /\
  parseLang "Python 3" = "python" /\
  parseLang "  C++11" = "c++" /\
  parseLang "Ruby" = "ruby" /\
  forallb (fun p => negb (JS.test p.2 (JS.toLowerCase (JS.trim "Ruby")))) langPatterns = true.
Proof. repeat split; reflexivity. Qed.

(** C10: [parseLang] is idempotent: a canonical tag normalises to itself,
    and a response that passed through is a fixed point. *)
Theorem parseLang_idempotent (x : string) :
  parseLang (parseLang x) = parseLang x.
Proof.
  unfold parseLang at 2 3.
  pose proof (parseLang_loop_cases (JS.toLowerCase (JS.trim x)) langPatterns) as H.
  remember (parseLang_loop (JS.toLowerCase (JS.trim x)) langPatterns) as y eqn:Ey.
  destruct H as [H | H].
  - simpl in H. destruct H as [H|[H|[H|[H|[H|[]]]]]]; rewrite <- H; reflexivity.
  - rewrite H at 1. unfold parseLang. rewrite toLowerCase_trim_fixed. now symmetry.
Qed.

(** ** [parseRow] *)

Lemma update_content d field f (h : heap) r :
  h !! d = Some r ->
  update d field f h =
  match updated field f r with
  | Return r' => Return (tt, <[d := r']> h)
  | Throw => Throw
  end.
Proof.
  intros H. unfold update, updated. rewrite H. now destruct (f (prop r field)).
Qed.

Lemma forEach_update_content d f fs : forall (h : heap) r,
  h !! d = Some r ->
  forEach fs (fun field => update d field f) h =
  match updatedEach fs f r with
  | Return r' => Return (tt, <[d := r']> h)
  | Throw => Throw
  end.
Proof.
  induction fs as [|k fs IH]; intros h r H; simpl.
  - unfold mret, M_ret. now rewrite insert_id.
  - unfold mbind, M_bind. rewrite (update_content _ _ _ _ _ H).
    destruct (updated k f r) as [r1|]; [|reflexivity].
    rewrite (IH _ r1) by apply lookup_insert_eq.
    destruct (updatedEach fs f r1); [|reflexivity].
    now rewrite insert_insert_eq.
Qed.

Section ParseRow.
Context `{host : Host}.

(** [parseRow] writes the object it is given, in place, and returns the
    reference it was given. *)
Lemma parseRow_content_spec d (h : heap) r :
  h !! d = Some r ->
  parseRow d h =
  match parseRow_content r with
  | Return r' => Return (d, <[d := r']> h)
  | Throw => Throw
  end.
Proof.
  intros H. unfold parseRow, parseRow_content, mbind, M_bind.
  rewrite (forEach_update_content _ _ _ _ _ H).
  destruct (updatedEach multiValuedFields parseList r) as [r1|]; [|reflexivity].
  rewrite (forEach_update_content _ _ _ _ r1) by apply lookup_insert_eq.
  destruct (updatedEach numericFields _ r1) as [r2|]; [|reflexivity].
  rewrite insert_insert_eq.
  rewrite (update_content _ _ _ _ r2) by apply lookup_insert_eq.
  destruct (updated "Timestamp" _ r2) as [r3|]; [|reflexivity].
  rewrite insert_insert_eq.
  rewrite (update_content _ _ _ _ r3) by apply lookup_insert_eq.
  destruct (updated fields.favlang _ r3) as [r4|]; [|reflexivity].
  now rewrite insert_insert_eq.
Qed.

Lemma parseRow_dangling d (h : heap) :
  h !! d = None -> parseRow d h = Throw.
Proof.
  intros H. unfold parseRow, mbind, M_bind. simpl.
  unfold mbind, M_bind, update. now rewrite H.
Qed.

Lemma normalized_content r :
  normalized r = parseRow_content r.
Proof.
  unfold normalized.
  rewrite (parseRow_content_spec 0 _ r) by apply lookup_singleton_eq.
  destruct (parseRow_content r); [|reflexivity].
  now rewrite lookup_insert_eq.
Qed.

End ParseRow.

(** The fields that [parseRow] writes are pairwise distinct. *)
Lemma NoDup_touched : NoDup touched.
Proof. compute_done. Qed.


Lemma prop_insert_ne (r : obj) k k' v : k <> k' -> prop (<[k := v]> r) k' = prop r k'.
Proof. intros H. unfold prop. now rewrite lookup_insert_ne. Qed.

(** What a loop of [update]s leaves in the object: each field of the loop
    holds the image of what it held, and no other field is written. *)
Lemma updatedEach_lookup f fs : forall (r r' : obj),
  NoDup fs ->
  updatedEach fs f r = Return r' ->
  (forall k, k ∈ fs -> exists v, f (prop r k) = Return v /\ r' !! k = Some v) /\
  (forall k, k ∉ fs -> r' !! k = r !! k).
Proof.
  induction fs as [|a fs IH]; intros r r' ND H; simpl in H.
  - inversion H; subst. split; [intros k Hk; inversion Hk | reflexivity].
  - apply NoDup_cons in ND as [Ha ND].
    unfold updated in H. destruct (f (prop r a)) as [v|] eqn:Ef; [|discriminate].
    destruct (IH _ _ ND H) as [IH1 IH2]. split.
    + intros k Hk. apply elem_of_cons in Hk as [-> | Hk].
      * exists v. split; [exact Ef|]. rewrite (IH2 _ Ha). apply lookup_insert_eq.
      * destruct (IH1 _ Hk) as (w & Hw & Hl). exists w. split; [|exact Hl].
        rewrite prop_insert_ne in Hw; [exact Hw | intros ->; contradiction].
    + intros k Hk. apply not_elem_of_cons in Hk as [Hne Hk].
      rewrite (IH2 _ Hk). now apply lookup_insert_ne.
Qed.

(** A loop of [update]s returns when its function returns on what each
    field holds. *)
Lemma updatedEach_returns f fs : forall (r : obj),
  NoDup fs ->
  (forall k, k ∈ fs -> exists v, f (prop r k) = Return v) ->
  exists r', updatedEach fs f r = Return r'.
Proof.
  induction fs as [|a fs IH]; intros r ND H; simpl; [eauto|].
  apply NoDup_cons in ND as [Ha ND].
  unfold updated. destruct (H a) as [v Ev]; [left|]. rewrite Ev.
  apply IH; [exact ND|]. intros k Hk.
  rewrite prop_insert_ne; [apply H; now right | intros ->; contradiction].
Qed.

Lemma touched_split :
  NoDup multiValuedFields /\ NoDup numericFields /\
  (forall k, k ∈ multiValuedFields ->
     (k ∉ numericFields) /\ k <> "Timestamp" /\ k <> fields.favlang) /\
  (forall k, k ∈ numericFields ->
     (k ∉ multiValuedFields) /\ k <> "Timestamp" /\ k <> fields.favlang) /\
  ("Timestamp" ∉ multiValuedFields) /\ ("Timestamp" ∉ numericFields) /\
  (fields.favlang ∉ multiValuedFields) /\ (fields.favlang ∉ numericFields) /\
  "Timestamp" <> fields.favlang.
Proof.
  pose proof NoDup_touched as ND. unfold touched in ND.
  apply NoDup_app in ND as (ND1 & D1 & ND).
  apply NoDup_app in ND as (ND2 & D2 & ND3).
  assert (L : forall k : string,
             k ∈ ["Timestamp"; fields.favlang] <-> k = "Timestamp" \/ k = fields.favlang).
  { intros k. rewrite elem_of_cons, list_elem_of_singleton. tauto. }
  assert (M : forall k, k ∈ multiValuedFields ->
             (k ∉ numericFields) /\ k <> "Timestamp" /\ k <> fields.favlang).
  { intros k H. pose proof (D1 k H) as N. rewrite not_elem_of_app, L in N. tauto. }
  assert (N : forall k, k ∈ numericFields ->
             (k ∉ multiValuedFields) /\ k <> "Timestamp" /\ k <> fields.favlang).
  { intros k H. pose proof (D2 k H) as N. rewrite L in N.
    split; [|tauto]. intros H'. destruct (M k H') as [H'' _]. contradiction. }
  split; [exact ND1|]. split; [exact ND2|]. split; [exact M|]. split; [exact N|].
  split; [intros H; now destruct (M _ H) as (_ & ? & _)|].
  split; [intros H; now destruct (N _ H) as (_ & ? & _)|].
  split; [intros H; now destruct (M _ H) as (_ & _ & ?)|].
  split; [intros H; now destruct (N _ H) as (_ & _ & ?)|].
  discriminate.
Qed.

Lemma not_touched k :
  k ∉ touched <->
  (k ∉ multiValuedFields) /\ (k ∉ numericFields) /\ k <> "Timestamp" /\ k <> fields.favlang.
Proof.
  unfold touched. rewrite !not_elem_of_app, not_elem_of_cons, list_elem_of_singleton. tauto.
Qed.

Section ParseRowContent.
Context `{host : Host}.

(** What [parseRow] leaves in the object when it returns. *)
Lemma parseRow_content_inv (r r' : obj) :
  parseRow_content r = Return r' ->
  (forall k, k ∈ multiValuedFields ->
     exists s, prop r k = VStr s /\ r' !! k = Some (VList (JS.split listSeparator s))) /\
  (forall k, k ∈ numericFields -> r' !! k = Some (VNum (ToNumber (prop r k)))) /\
  (exists v, timeFormat_parse_value (prop r "Timestamp") = Return v /\
             r' !! "Timestamp" = Some v) /\
  (exists s, prop r fields.favlang = VStr s /\ r' !! fields.favlang = Some (VStr (parseLang s))) /\
  (forall k, k ∉ touched -> r' !! k = r !! k).
Proof.
  destruct touched_split as (ND1 & ND2 & D1 & D2 & T1 & T2 & F1 & F2 & TF).
  unfold parseRow_content. intros H.
  destruct (updatedEach multiValuedFields parseList r) as [r1|] eqn:E1; [|discriminate].
  destruct (updatedEach numericFields _ r1) as [r2|] eqn:E2; [|discriminate].
  destruct (updated "Timestamp" _ r2) as [r3|] eqn:E3; [|discriminate].
  apply (updatedEach_lookup _ _ _ _ ND1) in E1 as [A1 B1].
  apply (updatedEach_lookup _ _ _ _ ND2) in E2 as [A2 B2].
  unfold updated in E3, H.
  destruct (timeFormat_parse_value (prop r2 "Timestamp")) as [vt|] eqn:Et; [|discriminate].
  destruct (parseLang_value (prop r3 fields.favlang)) as [vl|] eqn:El; [|discriminate].
  inversion E3; subst r3; clear E3. inversion H; subst r'; clear H.
  assert (P2 : forall k, k ∉ numericFields -> prop r2 k = prop r1 k).
  { intros k Hk. unfold prop. now rewrite B2. }
  assert (P1 : forall k, k ∉ multiValuedFields -> prop r1 k = prop r k).
  { intros k Hk. unfold prop. now rewrite B1. }
  repeat split.
  - intros k Hk. destruct (D1 k Hk) as (N & NT & NF).
    destruct (A1 k Hk) as (v & Ev & Lv).
    unfold parseList in Ev. destruct (prop r k) as [| |s| | |] eqn:Ep; try discriminate.
    inversion Ev; subst v. exists s. split; [reflexivity|].
    rewrite lookup_insert_ne, lookup_insert_ne by (intros E; now subst).
    now rewrite B2.
  - intros k Hk. destruct (D2 k Hk) as (N & NT & NF).
    destruct (A2 k Hk) as (v & Ev & Lv). inversion Ev; subst v.
    rewrite lookup_insert_ne, lookup_insert_ne by (intros E; now subst).
    now rewrite Lv, P1.
  - exists vt. rewrite P2, P1 in Et by assumption. split; [exact Et|].
    rewrite lookup_insert_ne by (intros E; now apply TF). apply lookup_insert_eq.
  - rewrite prop_insert_ne, P2, P1 in El by assumption.
    unfold parseLang_value in El.
    destruct (prop r fields.favlang) as [| |s| | |]; try discriminate.
    inversion El; subst vl. exists s. split; [reflexivity | apply lookup_insert_eq].
  - intros k Hk. apply not_touched in Hk as (K1 & K2 & K3 & K4).
    rewrite lookup_insert_ne, lookup_insert_ne by (intros E; now subst).
    now rewrite B2, B1.
Qed.

(** [parseRow] returns as soon as the four fields whose methods it calls
    hold strings. *)
Lemma parseRow_content_returns (r : obj) :
  (forall k, k ∈ multiValuedFields -> exists s, r !! k = Some (VStr s)) ->
  (exists s, r !! "Timestamp" = Some (VStr s)) ->
  (exists s, r !! fields.favlang = Some (VStr s)) ->
  exists r', parseRow_content r = Return r'.
Proof.
  destruct touched_split as (ND1 & ND2 & D1 & D2 & T1 & T2 & F1 & F2 & TF).
  intros HM [st Ht] [sl Hl]. unfold parseRow_content.
  destruct (updatedEach_returns parseList multiValuedFields r ND1) as [r1 E1].
  { intros k Hk. destruct (HM k Hk) as [s Hs]. unfold prop. rewrite Hs. simpl. eauto. }
  rewrite E1.
  destruct (updatedEach_returns (fun x => Return (VNum (ToNumber x))) numericFields r1 ND2)
    as [r2 E2]; [eauto|].
  rewrite E2.
  apply (updatedEach_lookup _ _ _ _ ND1) in E1 as [A1 B1].
  apply (updatedEach_lookup _ _ _ _ ND2) in E2 as [A2 B2].
  unfold updated.
  assert (Pt : prop r2 "Timestamp" = VStr st).
  { unfold prop. now rewrite B2, B1, Ht. }
  rewrite Pt. simpl. rewrite prop_insert_ne by exact TF.
  assert (Pl : prop r2 fields.favlang = VStr sl).
  { unfold prop. now rewrite B2, B1, Hl. }
  rewrite Pl. simpl. eauto.
Qed.

Lemma isRawRecord_lookup (r : obj) k :
  isRawRecord r = true -> k ∈ columns -> exists s, r !! k = Some (VStr s).
Proof.
  unfold isRawRecord. rewrite forallb_forall. intros H Hk.
  apply list_elem_of_In in Hk. specialize (H _ Hk).
  destruct (r !! k) as [[| |s| | |]|]; try discriminate. eauto.
Qed.

Lemma touched_columns k : k ∈ touched -> k ∈ columns.
Proof.
  assert (S : touched ⊆ columns) by compute_done. apply S.
Qed.

Lemma parseRow_content_raw (r : obj) :
  isRawRecord r = true -> exists r', parseRow_content r = Return r'.
Proof.
  intros H. apply parseRow_content_returns.
  - intros k Hk. apply (isRawRecord_lookup _ _ H), touched_columns.
    unfold touched. apply elem_of_app. now left.
  - apply (isRawRecord_lookup _ _ H). compute_done.
  - apply (isRawRecord_lookup _ _ H). compute_done.
Qed.

End ParseRowContent.

(** ** [ToNumber] on strings *)

Lemma literal_head_NaN c u :
  startsLiteral c = false ->
  match JS.nonDecimalLiteral (String c u) with
  | Some n => JS.round64 (inject_Z n)
  | None =>
      let '(neg, v) := JS.readSign (String c u) in
      let n := if String.eqb v "Infinity" then JS.PInf
               else match JS.unsignedDecimal v with
                    | Some q => JS.round64 q
                    | None => JS.NaN
                    end in
      if neg then JS.negate n else n
  end = JS.NaN.
Proof.
  destruct c as [[] [] [] [] [] [] [] []]; intros H; try discriminate H; reflexivity.
Qed.

(** Text that starts, after the leading white space, with a character that
    no numeric literal starts with coerces to NaN. *)
Lemma StringToNumber_nonNumeric c s :
  JS.isWhiteSpace c = false -> startsLiteral c = false ->
  JS.StringToNumber (String c s) = JS.NaN.
Proof.
  intros W L. unfold JS.StringToNumber, JS.trim.
  simpl JS.trimStart. rewrite W.
  destruct (JSFacts.trimEnd_head c s W) as [u ->].
  now apply literal_head_NaN.
Qed.

(** White space only coerces to 0. *)
Lemma StringToNumber_blank s : JS.trim s = "" -> JS.StringToNumber s = JS.Fin 0.
Proof. intros H. unfold JS.StringToNumber. now rewrite H. Qed.

(** ** The claims about normalisation and the predicates *)

Section Normalisation.
Context `{host : Host}.

(** C4: on a normalised record, [isReligious] returns, and returns [true]
    exactly when the list under [beliefs] contains one of the six strings
    [Christian], [Buddhist], [Jewish], [Muslim], [Pagan], [Hindu], compared
    character by character. *)
Theorem isReligious_iff (raw d : obj) :
  normalized raw = Return d ->
  exists l b,
    prop d fields.beliefs = VList l /\
    isReligious d = Return b /\
    (b = true <->
     exists x, x ∈ l /\
       x ∈ ["Christian"; "Buddhist"; "Jewish"; "Muslim"; "Pagan"; "Hindu"]).
Proof.
  rewrite normalized_content. intros H.
  apply parseRow_content_inv in H as (HM & _).
  destruct (HM fields.beliefs) as (s & _ & Hl); [left|].
  exists (JS.split listSeparator s), (existsb religions_has (JS.split listSeparator s)).
  unfold isReligious, prop. rewrite Hl. simpl. repeat split.
  - intros E. apply existsb_exists in E as (x & Hx & Hr). exists x.
    split; [now apply list_elem_of_In|].
    unfold religions_has in Hr. apply existsb_exists in Hr as (y & Hy & Hxy).
    apply String.eqb_eq in Hxy. subst y. now apply list_elem_of_In.
  - intros (x & Hx & Hr). apply existsb_exists. exists x.
    split; [now apply list_elem_of_In|].
    unfold religions_has. apply existsb_exists. exists x.
    split; [now apply list_elem_of_In | apply String.eqb_refl].
Qed.

(** After normalisation [hasOpinion(field)] compares 0 with the Number that
    the raw string coerces to. *)
Lemma hasOpinion_normalized (r : obj) (belief s : string) :
  isRawRecord r = true ->
  belief ∈ statements ->
  r !! belief = Some (VStr s) ->
  exists r',
    normalized r = Return r' /\
    makeHasOpinion belief r' = JS.lt (JS.Fin 0) (JS.StringToNumber s).
Proof.
  intros Hraw Hb Hs. rewrite normalized_content.
  destruct (parseRow_content_raw r Hraw) as [r' E].
  exists r'. split; [exact E|].
  apply parseRow_content_inv in E as (_ & HN & _).
  unfold makeHasOpinion, prop at 1. rewrite HN.
  - simpl. unfold prop. now rewrite Hs.
  - unfold numericFields. apply elem_of_app. now left.
Qed.

(** What [0 < n] says of a Number. *)
Lemma lt_0_iff (n : JS.number) :
  JS.lt (JS.Fin 0) n = true <-> n = JS.PInf \/ exists q, n = JS.Fin q /\ (0 < q)%Q.
Proof.
  destruct n as [| | |q]; simpl.
  - split; [discriminate | intros [H | (q & H & _)]; discriminate].
  - split; [now left | reflexivity].
  - split; [discriminate | intros [H | (q & H & _)]; discriminate].
  - rewrite negb_true_iff. split.
    + intros H. right. exists q. split; [reflexivity|].
      apply Qnot_le_lt. intros L. apply Qle_bool_iff in L. congruence.
    + intros [H | (q' & H & L)]; [discriminate|]. inversion H; subst q'.
      destruct (Qle_bool q 0) eqn:E; [|reflexivity].
      apply Qle_bool_iff in E. exfalso. now apply (Qlt_not_le _ _ L).
Qed.

(** C3, amended: on a raw record, after normalisation, [hasOpinion(field)]
    for a statement field is [true] exactly when the Number that the raw
    string coerces to is above 0: a positive finite value or [Infinity]. So
    it is [false] for the raw string [0], for the numeral [-1], for an
    empty or blank string, which coerces to 0, and for text that coerces to
    NaN. *)
Theorem hasOpinion_after_parseRow (r : obj) (belief s : string) :
  isRawRecord r = true ->
  belief ∈ statements ->
  r !! belief = Some (VStr s) ->
  exists r',
    normalized r = Return r' /\
    (makeHasOpinion belief r' = true <->
     JS.StringToNumber s = JS.PInf \/
     exists q, JS.StringToNumber s = JS.Fin q /\ (0 < q)%Q) /\
    (s = "0" -> makeHasOpinion belief r' = false) /\
    (s = "-1" -> makeHasOpinion belief r' = false) /\
    (JS.trim s = "" -> makeHasOpinion belief r' = false) /\
    (JS.StringToNumber s = JS.NaN -> makeHasOpinion belief r' = false).
Proof.
  intros Hraw Hb Hs.
  destruct (hasOpinion_normalized r belief s Hraw Hb Hs) as (r' & E & Hop).
  exists r'. split; [exact E|]. rewrite Hop. split; [apply lt_0_iff|]. repeat split.
  - intros ->. reflexivity.
  - intros ->. reflexivity.
  - intros Ht. now rewrite StringToNumber_blank.
  - intros ->. reflexivity.
Qed.

(** C8: [parseRow] returns on every raw record. Each numeric field then
    holds the Number its string coerces to, which is 0 for the empty string
    and NaN for text that does not start like a numeric literal; [Timestamp]
    holds the date, or [null] when the string is not in the format; the
    favourite language holds [parseLang] of its string, which is the
    lower-cased, trimmed string when no pattern matches it. *)
Theorem parseRow_never_throws (d : loc) (h : heap) (r : obj) :
  isRawRecord r = true ->
  h !! d = Some r ->
  exists r',
    parseRow d h = Return (d, <[d := r']> h) /\
    (forall k s, k ∈ numericFields -> r !! k = Some (VStr s) ->
       r' !! k = Some (VNum (JS.StringToNumber s))) /\
    JS.StringToNumber "" = JS.Fin 0 /\
    (forall c s, JS.isWhiteSpace c = false -> startsLiteral c = false ->
       JS.StringToNumber (String c s) = JS.NaN) /\
    (forall s, r !! "Timestamp" = Some (VStr s) ->
       r' !! "Timestamp" =
       Some (match timeFormat_parse s with Some t => VDate t | None => VNull end)) /\
    (forall s, r !! fields.favlang = Some (VStr s) ->
       r' !! fields.favlang = Some (VStr (parseLang s)) /\
       (forallb (fun p => negb (JS.test p.2 (JS.toLowerCase (JS.trim s)))) langPatterns = true ->
        parseLang s = JS.toLowerCase (JS.trim s))).
Proof.
  intros Hraw Hd. rewrite (parseRow_content_spec _ _ _ Hd).
  destruct (parseRow_content_raw r Hraw) as [r' E].
  rewrite E. exists r'. split; [reflexivity|].
  apply parseRow_content_inv in E as (_ & HN & (vt & Ht & Lt) & (sl & Hl & Ll) & _).
  repeat split.
  - intros k s Hk Hs. rewrite (HN k Hk). unfold prop. now rewrite Hs.
  - exact StringToNumber_nonNumeric.
  - intros s Hs. unfold prop in Ht. rewrite Hs in Ht. simpl in Ht.
    inversion Ht; subst vt. exact Lt.
  - rename H into Hs. unfold prop in Hl. rewrite Hs in Hl. simpl in Hl.
    inversion Hl; subst sl. exact Ll.
  - intros Hun. unfold parseLang. now apply parseLang_loop_unmatched.
Qed.


End Normalisation.

(** A raw record for the examples. *)
Lemma rawRow_raw t b g f : isRawRecord (rawRow t b g f) = true.
Proof.
  unfold isRawRecord. apply forallb_forall. intros k Hk.
  unfold rawRow.
  destruct (decide (k = "Timestamp")) as [->|N1]; [now rewrite lookup_insert_eq|].
  rewrite lookup_insert_ne by congruence.
  destruct (decide (k = fields.beliefs)) as [->|N2]; [now rewrite lookup_insert_eq|].
  rewrite lookup_insert_ne by congruence.
  destruct (decide (k = fields.humangood)) as [->|N3]; [now rewrite lookup_insert_eq|].
  rewrite lookup_insert_ne by congruence.
  destruct (decide (k = fields.favlang)) as [->|N4]; [now rewrite lookup_insert_eq|].
  rewrite lookup_insert_ne by congruence.
  simpl in Hk. repeat (destruct Hk as [<- | Hk]; [reflexivity|]). destruct Hk.
Qed.

Lemma isReligious_iff_witness :
  exists d,
    normalized (rawRow "2014/04/25 11:44:09 AM AST" "Christian;Liberal" "4" "Go")
    = Return d /\
    exists l b,
      prop d fields.beliefs = VList l /\
      isReligious d = Return b /\
      (b = true <->
       exists x, x ∈ l /\
         x ∈ ["Christian"; "Buddhist"; "Jewish"; "Muslim"; "Pagan"; "Hindu"]).
Proof.
  destruct (parseRow_content_raw
              (rawRow "2014/04/25 11:44:09 AM AST" "Christian;Liberal" "4" "Go")
              (rawRow_raw _ _ _ _)) as [d E].
  rewrite <- normalized_content in E.
  exists d. split; [exact E|].
  exact (isReligious_iff _ d E).
Defined.

(** The comparison is exact: a lower-case [christian] is not in the set, and
    neither is a part that kept a blank from the raw string. *)
Example isReligious_exact :
  isReligious {[ fields.beliefs := VList ["christian"; " Christian"; "Liberal"] ]}
  = Return false /\
  isReligious {[ fields.beliefs := VList ["Liberal"; "Hindu"] ]} = Return true.
Proof. split; vm_compute; reflexivity. Qed.

Lemma hasOpinion_after_parseRow_witness :
  isRawRecord (rawRow "2014/04/25 11:44:09 AM AST" "Atheist" "4" "Go") = true /\
  fields.humangood ∈ statements /\
  rawRow "2014/04/25 11:44:09 AM AST" "Atheist" "4" "Go" !! fields.humangood = Some (VStr "4") /\
  exists r',
    normalized (rawRow "2014/04/25 11:44:09 AM AST" "Atheist" "4" "Go") = Return r' /\
    (makeHasOpinion fields.humangood r' = true <->
     JS.StringToNumber "4" = JS.PInf \/
     exists q, JS.StringToNumber "4" = JS.Fin q /\ (0 < q)%Q) /\
    ("4" = "0" -> makeHasOpinion fields.humangood r' = false) /\
    ("4" = "-1" -> makeHasOpinion fields.humangood r' = false) /\
    (JS.trim "4" = "" -> makeHasOpinion fields.humangood r' = false) /\
    (JS.StringToNumber "4" = JS.NaN -> makeHasOpinion fields.humangood r' = false).
Proof.
  assert (H1 : isRawRecord (rawRow "2014/04/25 11:44:09 AM AST" "Atheist" "4" "Go") = true)
    by (vm_compute; reflexivity).
  assert (H2 : fields.humangood ∈ statements) by (apply (bool_decide_unpack _); vm_compute; exact I).
  assert (H3 : rawRow "2014/04/25 11:44:09 AM AST" "Atheist" "4" "Go" !! fields.humangood
               = Some (VStr "4")) by (vm_compute; reflexivity).
  split; [exact H1|]. split; [exact H2|]. split; [exact H3|].
  exact (hasOpinion_after_parseRow _ _ _ H1 H2 H3).
Defined.

(** C3 as stated fails: on a raw record whose [humangood] cell is [-1], a
    numeral that is not the string [0], [hasOpinion] is [false]. *)
Lemma hasOpinion_claim_fails :
  ~ (forall (r r' : obj) (belief s : string),
       isRawRecord r = true ->
       belief ∈ statements ->
       r !! belief = Some (VStr s) ->
       normalized r = Return r' ->
       (makeHasOpinion belief r' = false <-> (s = "0" \/ JS.StringToNumber s = JS.NaN))).
Proof.
  intros H.
  destruct (parseRow_content_raw
              (rawRow "2014/04/25 11:44:09 AM AST" "Atheist" "-1" "Go")) as [r' E].
  { vm_compute; reflexivity. }
  rewrite <- normalized_content in E.
  specialize (H (rawRow "2014/04/25 11:44:09 AM AST" "Atheist" "-1" "Go") r'
                fields.humangood "-1" (rawRow_raw _ _ _ _)).
  destruct H as [H _]; [compute_done | vm_compute; reflexivity | exact E |].
  destruct H as [H | H]; [|discriminate H|discriminate H].
  rewrite normalized_content in E.
  apply parseRow_content_inv in E as (_ & HN & _).
  unfold makeHasOpinion, prop. rewrite HN by compute_done. reflexivity.
Qed.

(** The same on an empty cell, which coerces to 0 and not to NaN. *)
Example hasOpinion_empty_cell :
  exists r',
    normalized (rawRow "2014/04/25 11:44:09 AM AST" "Atheist" "" "Go") = Return r' /\
    makeHasOpinion fields.humangood r' = false /\
    JS.StringToNumber "" = JS.Fin 0.
Proof.
  destruct (hasOpinion_normalized
              (rawRow "2014/04/25 11:44:09 AM AST" "Atheist" "" "Go") fields.humangood "")
    as (r' & E & B); [apply rawRow_raw | compute_done | vm_compute; reflexivity |].
  exists r'. split; [exact E|]. split; [exact B | reflexivity].
Qed.

Lemma parseRow_never_throws_witness :
  isRawRecord (rawRow "yesterday" "Atheist" "n/a" "Ruby") = true /\
  ({[ 7 := rawRow "yesterday" "Atheist" "n/a" "Ruby" ]} : heap) !! 7
    = Some (rawRow "yesterday" "Atheist" "n/a" "Ruby") /\
  exists r',
    parseRow 7 {[ 7 := rawRow "yesterday" "Atheist" "n/a" "Ruby" ]}
    = Return (7, <[7 := r']> {[ 7 := rawRow "yesterday" "Atheist" "n/a" "Ruby" ]}) /\
    r' !! fields.humangood = Some (VNum JS.NaN) /\
    r' !! fields.progyears = Some (VNum (JS.Fin 0)) /\
    r' !! "Timestamp" = Some VNull /\
    r' !! fields.favlang = Some (VStr "ruby").
Proof.
  assert (H1 : isRawRecord (rawRow "yesterday" "Atheist" "n/a" "Ruby") = true)
    by (vm_compute; reflexivity).
  assert (H2 : ({[ 7 := rawRow "yesterday" "Atheist" "n/a" "Ruby" ]} : heap) !! 7
               = Some (rawRow "yesterday" "Atheist" "n/a" "Ruby")) by apply lookup_singleton_eq.
  split; [exact H1|]. split; [exact H2|].
  destruct (parseRow_never_throws 7 _ _ H1 H2)
    as (r' & E & HN & _ & _ & HT & HL).
  exists r'. split; [exact E|]. repeat split.
  - apply (HN fields.humangood "n/a"); [apply (bool_decide_unpack _); vm_compute; exact I|].
    vm_compute; reflexivity.
  - apply (HN fields.progyears ""); [apply (bool_decide_unpack _); vm_compute; exact I|].
    vm_compute; reflexivity.
  - apply (HT "yesterday"). vm_compute; reflexivity.
  - apply (HL "Ruby"). vm_compute; reflexivity.
Defined.


(** ** Ordered objects *)

Lemma Obj_get_In {A} (m : Obj.t A) k a : Obj.get m k = Some a -> In (k, a) m.
Proof.
  induction m as [|[k' a'] m IH]; simpl; [discriminate|].
  destruct (String.eqb k k') eqn:E.
  - apply String.eqb_eq in E. subst k'. intros H. inversion H; subst. now left.
  - intros H. right. auto.
Qed.

Lemma Obj_get_None {A} (m : Obj.t A) k : Obj.get m k = None <-> ~ In k (map fst m).
Proof.
  induction m as [|[k' a'] m IH]; simpl; [tauto|].
  destruct (String.eqb k k') eqn:E.
  - apply String.eqb_eq in E. subst k'. split; [discriminate | intros H; exfalso; auto].
  - apply String.eqb_neq in E. rewrite IH. split; [intros H [H'|H']; auto | auto].
Qed.

Lemma Obj_In_get {A} (m : Obj.t A) k a :
  NoDup (map fst m) -> In (k, a) m -> Obj.get m k = Some a.
Proof.
  induction m as [|[k' a'] m IH]; simpl; [tauto|].
  intros ND [H | H].
  - inversion H; subst. now rewrite String.eqb_refl.
  - apply NoDup_cons in ND as [Hn ND'].
    destruct (String.eqb k k') eqn:E; [|auto].
    apply String.eqb_eq in E. subst k'. exfalso. apply Hn.
    apply list_elem_of_In, in_map_iff. now exists (k, a).
Qed.

Lemma Obj_get_set_eq {A} (m : Obj.t A) k a : Obj.get (Obj.set m k a) k = Some a.
Proof.
  induction m as [|[k' a'] m IH]; simpl.
  - now rewrite String.eqb_refl.
  - destruct (String.eqb k k') eqn:E; simpl; rewrite E; [reflexivity | exact IH].
Qed.

Lemma Obj_get_set_ne {A} (m : Obj.t A) k k' a :
  k <> k' -> Obj.get (Obj.set m k a) k' = Obj.get m k'.
Proof.
  intros N. induction m as [|[k0 a0] m IH]; simpl.
  - apply String.eqb_neq in N. rewrite String.eqb_sym in N. now rewrite N.
  - destruct (String.eqb k k0) eqn:E; simpl.
    + apply String.eqb_eq in E. subst k0.
      assert (E : String.eqb k' k = false) by (apply String.eqb_neq; congruence).
      now rewrite E.
    + now rewrite IH.
Qed.

Lemma Obj_set_In {A} (m : Obj.t A) k a e :
  In e (Obj.set m k a) -> e = (k, a) \/ In e m.
Proof.
  induction m as [|[k' a'] m IH]; simpl.
  - intros [H|[]]. now left.
  - destruct (String.eqb k k') eqn:E; simpl.
    + apply String.eqb_eq in E. subst k'. intros [H|H]; [now left | right; now right].
    + intros [H|H]; [right; now left|]. destruct (IH H); [now left | right; now right].
Qed.

Lemma Obj_set_keys {A} (m : Obj.t A) k a :
  map fst (Obj.set m k a) =
  match Obj.get m k with Some _ => map fst m | None => (map fst m ++ [k])%list end.
Proof.
  induction m as [|[k' a'] m IH]; simpl; [reflexivity|].
  destruct (String.eqb k k') eqn:E; simpl; [reflexivity|].
  rewrite IH. now destruct (Obj.get m k).
Qed.

Lemma Obj_set_NoDup {A} (m : Obj.t A) k a :
  NoDup (map fst m) -> NoDup (map fst (Obj.set m k a)).
Proof.
  intros ND. rewrite Obj_set_keys. destruct (Obj.get m k) eqn:E; [exact ND|].
  apply Obj_get_None in E.
  apply (proj2 (NoDup_app _ _)). repeat split; [exact ND| |apply NoDup_singleton].
  intros x Hx Hk. apply list_elem_of_singleton in Hk. subst x.
  apply E. now apply list_elem_of_In.
Qed.

Lemma Obj_insertIndex_In {A} i (e : string * A) l x :
  In x (Obj.insertIndex i e l) <-> x = (i, e) \/ In x l.
Proof.
  induction l as [|[j e'] l IH]; simpl; [intuition|].
  destruct (i <? j)%Z; simpl; [intuition|]. rewrite IH. intuition.
Qed.

Lemma Obj_indexed_In {A} (m : Obj.t A) i e : In (i, e) (Obj.indexed m) -> In e m.
Proof.
  induction m as [|[k a] m IH]; simpl; [tauto|].
  destruct (Obj.arrayIndex k).
  - rewrite Obj_insertIndex_In. intros [H|H]; [inversion H; now left | right; auto].
  - intros H. right. auto.
Qed.

(** Enumerating an object gives nothing but its own properties. *)
Lemma Obj_entries_In {A} (m : Obj.t A) e : In e (Obj.entries m) -> In e m.
Proof.
  unfold Obj.entries. rewrite in_app_iff, in_map_iff, filter_In.
  intros [([i e'] & <- & H) | [H _]]; [|exact H].
  simpl. now apply Obj_indexed_In in H.
Qed.

(** ** Rounding to binary64 *)

Lemma roundHalfEven_near (m : Q) :
  (Qabs (inject_Z (JS.roundHalfEven m) - m) <= 1 # 2)%Q.
Proof.
  unfold JS.roundHalfEven.
  pose proof (Qfloor_le m) as L. pose proof (Qlt_floor m) as U.
  rewrite inject_Z_plus in U. change (inject_Z 1) with 1%Q in U.
  apply Qabs_Qle_condition.
  destruct (Qcompare (m - inject_Z (Qfloor m)) (1 # 2)) eqn:C.
  - apply Qeq_alt in C. destruct (Z.even (Qfloor m)).
    + split; lra.
    + rewrite inject_Z_plus. change (inject_Z 1) with 1%Q. split; lra.
  - apply Qlt_alt in C. split; lra.
  - apply Qgt_alt in C. rewrite inject_Z_plus. change (inject_Z 1) with 1%Q. split; lra.
Qed.

Lemma pow2_pos e : (0 < JS.pow2 e)%Q.
Proof. unfold JS.pow2. apply Qpower_0_lt. reflexivity. Qed.

Lemma pow2_le a b : (a <= b)%Z -> (JS.pow2 a <= JS.pow2 b)%Q.
Proof. intros H. unfold JS.pow2. apply Qpower_le_compat_l; [exact H | discriminate]. Qed.

Lemma exponent_le_0 (q : Q) : (0 < q)%Q -> (q <= 1)%Q -> (JS.exponent q <= 0)%Z.
Proof.
  intros H0 H1. unfold JS.exponent.
  assert (E : (Z.log2 (Qnum q) - Z.log2 (Z.pos (Qden q)) <= 0)%Z).
  { unfold Qle in H1. simpl in H1. rewrite Z.mul_1_r, Z.mul_1_l in H1.
    pose proof (Z.log2_le_mono _ _ H1). lia. }
  destruct (Qle_bool _ q); lia.
Qed.

(** A rational in [0, 1] rounds to a finite Number at most [2^-53] away. *)
Lemma round64_near (q : Q) :
  (0 <= q)%Q -> (q <= 1)%Q ->
  exists r, JS.round64 q = JS.Fin r /\ (Qabs (r - q) <= JS.pow2 (-53))%Q.
Proof.
  intros H0 H1. unfold JS.round64. destruct (Qnum q) as [|p|p] eqn:En.
  - exists 0%Q. split; [reflexivity|].
    assert (Eq : (q == 0)%Q) by (unfold Qeq; rewrite En; reflexivity).
    rewrite Eq. vm_compute. discriminate.
  - assert (Hpos : (0 < q)%Q) by (unfold Qlt; rewrite En; simpl; lia).
    unfold JS.round64_pos.
    set (e := Z.max (JS.exponent q) (-1022)).
    assert (He : (e <= 0)%Z) by (pose proof (exponent_le_0 q Hpos H1); lia).
    set (ulp := JS.pow2 (e - 52)).
    assert (Hu0 : (0 < ulp)%Q) by apply pow2_pos.
    assert (Hu1 : (ulp <= JS.pow2 (-52))%Q) by (apply pow2_le; lia).
    set (n := JS.roundHalfEven (q / ulp)).
    pose proof (roundHalfEven_near (q / ulp)) as Hn. fold n in Hn.
    assert (Hr : (Qabs (inject_Z n * ulp - q) <= JS.pow2 (-53))%Q).
    { assert (Eq : (inject_Z n * ulp - q == (inject_Z n - q / ulp) * ulp)%Q)
        by (field; lra).
      rewrite Eq, Qabs_Qmult, (Qabs_pos ulp) by lra.
      assert (Hh : (JS.pow2 (-53) == (1 # 2) * JS.pow2 (-52))%Q) by reflexivity.
      rewrite Hh. apply Qmult_le_compat_nonneg; split;
        [apply Qabs_nonneg | exact Hn | lra | exact Hu1]. }
    assert (Hb : Qle_bool (JS.pow2 1024) (inject_Z n * ulp) = false).
    { destruct (Qle_bool (JS.pow2 1024) (inject_Z n * ulp)) eqn:Eb; [|reflexivity].
      apply Qle_bool_iff in Eb. apply Qabs_Qle_condition in Hr.
      assert (Hs : (JS.pow2 (-53) + 1 < JS.pow2 1024)%Q) by reflexivity.
      lra. }
    rewrite Hb. exists (Qred (inject_Z n * ulp)). split; [reflexivity|].
    now rewrite Qred_correct.
  - exfalso. unfold Qle in H0. rewrite En in H0. simpl in H0. lia.
Qed.

(** The sum of three roundings is within three roundings' error of the sum. *)
Lemma round64_sum3 (x y z : Q) :
  (0 <= x)%Q -> (0 <= y)%Q -> (0 <= z)%Q -> (x + y + z == 1)%Q ->
  exists rx ry rz,
    JS.round64 x = JS.Fin rx /\ JS.round64 y = JS.Fin ry /\ JS.round64 z = JS.Fin rz /\
    (Qabs (rx + ry + rz - 1) <= 3 * JS.pow2 (-53))%Q.
Proof.
  intros Hx Hy Hz E.
  destruct (round64_near x Hx) as (rx & Ex & Bx); [lra|].
  destruct (round64_near y Hy) as (ry & Ey & By); [lra|].
  destruct (round64_near z Hz) as (rz & Ez & Bz); [lra|].
  exists rx, ry, rz. repeat split; try assumption.
  apply Qabs_Qle_condition in Bx, By, Bz. apply Qabs_Qle_condition. split; lra.
Qed.

(** ** The cross-tabulation *)

Section CrossTab.
Context `{host : Host}.

Lemma alter_succ_counts bin (v : list Z) :
  counts3 v -> bin = 0 \/ bin = 1 \/ bin = 2 -> counts3 (alter Z.succ bin v).
Proof.
  intros (a & b & c & -> & Ha & Hb & Hc) [-> | [-> | ->]]; simpl.
  - exists (Z.succ a), b, c. repeat split; try assumption; lia.
  - exists a, (Z.succ b), c. repeat split; try assumption; lia.
  - exists a, b, (Z.succ c). repeat split; try assumption; lia.
Qed.

(** Each step of the [reduce] keeps the accumulator an object whose
    properties are three counts each. *)
Lemma tally_tallies belief favlang m row :
  tallies m -> tallies (tally belief favlang m row).
Proof.
  intros [ND HF]. unfold tally.
  destruct (inheritedKey _); [now split|].
  set (lang := ToString _).
  set (v0 := default [0; 0; 0]%Z (Obj.get m lang)).
  assert (Hv0 : counts3 v0).
  { unfold v0. destruct (Obj.get m lang) as [v|] eqn:E; simpl.
    - apply Obj_get_In, list_elem_of_In in E. rewrite Forall_forall in HF. exact (HF _ E).
    - exists 0%Z, 0%Z, 0%Z. repeat split; lia. }
  rewrite Obj_get_set_eq. simpl. split.
  - now apply Obj_set_NoDup, Obj_set_NoDup.
  - apply Forall_forall. intros e He. apply list_elem_of_In in He.
    apply Obj_set_In in He as [-> | He].
    + simpl. apply alter_succ_counts; [exact Hv0|]. unfold binOf.
      destruct (looseEq _ _); [auto|]. destruct (JS.lt _ _); auto.
    + apply Obj_set_In in He as [-> | He]; [exact Hv0|].
      rewrite Forall_forall in HF. apply HF. now apply list_elem_of_In.
Qed.

Lemma fold_tally_tallies belief favlang rows : forall m,
  tallies m -> tallies (fold_left (tally belief favlang) rows m).
Proof.
  induction rows as [|row rows IH]; intros m H; simpl; [exact H|].
  now apply IH, tally_tallies.
Qed.

Lemma stats_tallies rows : tallies (stats rows).
Proof.
  apply fold_tally_tallies. split; [constructor | constructor].
Qed.

(** The entries that survive the filter, traced back to [stats]. *)
Lemma data_inv rows k fr :
  In (k, fr) (data rows) ->
  exists a b c : Z,
    Obj.get (stats rows) k = Some [a; b; c] /\
    (0 <= a)%Z /\ (0 <= b)%Z /\ (0 <= c)%Z /\ (3 < a + b + c)%Z /\
    fr = [divide a (a + b + c); divide b (a + b + c); divide c (a + b + c)].
Proof.
  unfold data. rewrite in_map_iff.
  intros ([k' v] & E & H). simpl in E. inversion E; subst k' fr; clear E.
  apply filter_In in H as [H Hs]. simpl in Hs. apply Z.ltb_lt in Hs.
  apply Obj_entries_In in H.
  destruct (stats_tallies rows) as [ND HF].
  rewrite Forall_forall in HF.
  destruct (HF _ (proj2 (list_elem_of_In _ _) H)) as (a & b & c & Ev & Ha & Hb & Hc).
  simpl in Ev. subst v.
  exists a, b, c. rewrite (Obj_In_get _ _ _ ND H).
  unfold d3_sum in *. simpl in *. rewrite Z.add_0_r in *. rewrite Z.add_assoc in *.
  repeat split; assumption.
Qed.

Lemma divide_round64 x s :
  s <> 0%Z -> divide x s = JS.round64 (inject_Z x / inject_Z s).
Proof. intros H. unfold divide. apply Z.eqb_neq in H. now rewrite H. Qed.

Lemma fractions_sum_1 (a b c : Z) :
  (a + b + c <> 0)%Z ->
  (inject_Z a / inject_Z (a + b + c) + inject_Z b / inject_Z (a + b + c)
   + inject_Z c / inject_Z (a + b + c) == 1)%Q.
Proof.
  intros H. rewrite !inject_Z_plus. field.
  rewrite <- !inject_Z_plus. change 0%Q with (inject_Z 0).
  intros E. apply (proj1 (inject_Z_injective _ _)) in E. contradiction.
Qed.

End CrossTab.

Section Counting.
Context `{host : Host}.

(** How many rows of [rs] name [k] and fall in bin [i]. *)
Let cnt (rs : list obj) (k : string) (i : nat) : Z :=
  Z.of_nat (length
    (List.filter
       (fun row => String.eqb (ToString (prop row fields.favlang)) k
                   && Nat.eqb (binOf (prop row fields.humangood)) i) rs)).

Lemma counts_eq (a a' b b' c c' : Z) :
  a = a' -> b = b' -> c = c' -> Some [a; b; c] = Some [a'; b'; c'].
Proof. congruence. Qed.

Lemma binOf_range v : binOf v = 0 \/ binOf v = 1 \/ binOf v = 2.
Proof. unfold binOf. destruct (looseEq _ _); [auto|]. destruct (JS.lt _ _); auto. Qed.

(** What the [reduce] adds to the counts that the accumulator holds for a
    language: one for each row, in the bin of the row. *)
Lemma fold_tally_get k rs : forall m,
  inheritedKey k = false -> tallies m ->
  Obj.get (fold_left (tally fields.humangood fields.favlang) rs m) k =
  if (cnt rs k 0 + cnt rs k 1 + cnt rs k 2 =? 0)%Z then Obj.get m k
  else match default [0; 0; 0]%Z (Obj.get m k) with
       | [a; b; c] => Some [a + cnt rs k 0; b + cnt rs k 1; c + cnt rs k 2]%Z
       | _ => None
       end.
Proof.
  intros m Hk. revert m. induction rs as [|row rs IH]; intros m Hm; [reflexivity|].
  simpl fold_left. rewrite (IH _ (tally_tallies _ _ _ _ Hm)). clear IH.
  assert (N : forall i, (0 <= cnt rs k i)%Z) by (intros i; apply Nat2Z.is_nonneg).
  assert (C : forall i, cnt (row :: rs) k i =
     ((if String.eqb (ToString (prop row fields.favlang)) k
          && Nat.eqb (binOf (prop row fields.humangood)) i then 1 else 0) + cnt rs k i)%Z).
  { intros i. unfold cnt. simpl List.filter.
    destruct (_ && _); [|reflexivity]. simpl length. lia. }
  rewrite !C. clear C.
  assert (V : exists a b c, default [0; 0; 0]%Z (Obj.get m k) = [a; b; c]).
  { destruct (Obj.get m k) as [v|] eqn:E; simpl; [|eauto].
    destruct Hm as [_ HF]. rewrite Forall_forall in HF.
    apply Obj_get_In, list_elem_of_In in E.
    destruct (HF _ E) as (a & b & c & Ev & _). simpl in Ev. eauto. }
  destruct V as (a & b & c & V).
  unfold tally. destruct (String.eqb (ToString (prop row fields.favlang)) k) eqn:El.
  - apply String.eqb_eq in El. rewrite El, Hk.
    rewrite !Obj_get_set_eq. simpl default. rewrite V.
    destruct (binOf_range (prop row fields.humangood)) as [B | [B | B]];
      rewrite B; simpl;
      pose proof (N 0) as N0; pose proof (N 1) as N1; pose proof (N 2) as N2;
      repeat match goal with |- context [(?x =? 0)%Z] => destruct (Z.eqb_spec x 0) end;
      try lia; apply counts_eq; lia.
  - simpl andb. rewrite !Z.add_0_l.
    destruct (inheritedKey (ToString (prop row fields.favlang))); [reflexivity|].
    apply String.eqb_neq in El. now rewrite !Obj_get_set_ne by exact El.
Qed.

(** The counts that [stats] holds for a language are the numbers of rows
    with an opinion that name it, bin by bin; a language that no such row
    names has no entry. *)
Lemma stats_counted rows k :
  inheritedKey k = false ->
  Obj.get (stats rows) k =
  if (counted rows k 0 + counted rows k 1 + counted rows k 2 =? 0)%Z then None
  else Some [counted rows k 0; counted rows k 1; counted rows k 2].
Proof.
  intros Hk. unfold stats. rewrite (fold_tally_get k _ [] Hk).
  - reflexivity.
  - split; constructor.
Qed.

(** A key inherited from [Object.prototype] never gets an entry. *)
Lemma stats_inherited rows k : inheritedKey k = true -> Obj.get (stats rows) k = None.
Proof.
  intros Hk. unfold stats.
  assert (G : forall rs m, Obj.get m k = None ->
            Obj.get (fold_left (tally fields.humangood fields.favlang) rs m) k = None).
  { induction rs as [|row rs IH]; intros m Hm; [exact Hm|]. simpl. apply IH.
    unfold tally. destruct (inheritedKey (ToString _)) eqn:E; [exact Hm|].
    rewrite Obj_get_set_ne, Obj_get_set_ne
      by (intros Heq; rewrite Heq in E; congruence).
    exact Hm. }
  now apply G.
Qed.

End Counting.

Section Retained.
Context `{host : Host}.

(** C6: a language is in the cross-tabulation only if the rows with an
    opinion that name it, the total of its three counts, are more than 3.
    Its three fractions are then the Numbers nearest to the three counts
    divided by the total: quotients whose sum is exactly 1, so that the
    three Numbers add up to 1 within three rounding errors of [2^-53]. *)
Theorem data_retained_normalized (rows : list obj) (k : string) (fr : list JS.number) :
  In (k, fr) (data rows) ->
  exists a b c : Z,
    a = counted rows k 0 /\ b = counted rows k 1 /\ c = counted rows k 2 /\
    Obj.get (stats rows) k = Some [a; b; c] /\
    (3 < a + b + c)%Z /\
    (inject_Z a / inject_Z (a + b + c) + inject_Z b / inject_Z (a + b + c)
     + inject_Z c / inject_Z (a + b + c) == 1)%Q /\
    exists x y z : Q,
      fr = [JS.Fin x; JS.Fin y; JS.Fin z] /\
      JS.Fin x = JS.round64 (inject_Z a / inject_Z (a + b + c)) /\
      JS.Fin y = JS.round64 (inject_Z b / inject_Z (a + b + c)) /\
      JS.Fin z = JS.round64 (inject_Z c / inject_Z (a + b + c)) /\
      (Qabs (x + y + z - 1) <= 3 * JS.pow2 (-53))%Q.
Proof.
  intros H. destruct (data_inv _ _ _ H) as (a & b & c & E & Ha & Hb & Hc & Hs & Hfr).
  exists a, b, c.
  assert (Hk : inheritedKey k = false).
  { destruct (inheritedKey k) eqn:Ek; [|reflexivity].
    rewrite (stats_inherited rows k Ek) in E. discriminate. }
  pose proof (stats_counted rows k Hk) as Hc3. rewrite E in Hc3.
  destruct (_ =? 0)%Z; [discriminate|]. inversion Hc3 as [[E0 E1 E2]].
  rewrite <- E0, <- E1, <- E2.
  repeat (split; [reflexivity || assumption|]).
  pose proof (fractions_sum_1 a b c) as Hsum.
  split; [apply Hsum; lia|].
  assert (P : forall n : Z, (0 <= n)%Z -> (0 <= inject_Z n / inject_Z (a + b + c))%Q).
  { intros n Hn. apply Qle_shift_div_l.
    - change 0%Q with (inject_Z 0). rewrite <- Zlt_Qlt. lia.
    - rewrite Qmult_0_l. change 0%Q with (inject_Z 0). rewrite <- Zle_Qle. exact Hn. }
  destruct (round64_sum3 _ _ _ (P a Ha) (P b Hb) (P c Hc)) as (x & y & z & Ex & Ey & Ez & B).
  { apply Hsum. lia. }
  exists x, y, z. rewrite !divide_round64 in Hfr by lia.
  rewrite Ex, Ey, Ez in Hfr. repeat split; congruence || assumption.
Qed.

End Retained.

(** ** Sorting *)

Lemma lt_asym (x y : JS.number) : JS.lt x y = true -> JS.lt y x = false.
Proof.
  destruct x as [| | |p], y as [| | |q]; simpl; try reflexivity; try discriminate.
  rewrite !negb_true_iff, negb_false_iff. unfold Qle_bool.
  rewrite Z.leb_gt, Z.leb_le. lia.
Qed.

(** On Numbers other than NaN, [d3.descending] is above zero exactly when
    its first argument is the smaller one. *)
Lemma above0_descending (x y : JS.number) :
  x <> JS.NaN -> y <> JS.NaN ->
  above0 (d3_descending x y) = JS.lt x y.
Proof.
  intros Hx Hy. unfold d3_descending.
  destruct (JS.lt y x) eqn:E1.
  - rewrite (lt_asym _ _ E1). reflexivity.
  - destruct (JS.lt x y) eqn:E2; [reflexivity|].
    destruct (JS.ge y x); reflexivity.
Qed.

Lemma ge_of_not_lt (x y : JS.number) :
  x <> JS.NaN -> y <> JS.NaN -> JS.lt x y = false -> JS.ge x y = true.
Proof.
  intros Hx Hy H. unfold JS.ge. rewrite H.
  destruct x, y; try reflexivity; contradiction.
Qed.

Lemma ge_of_lt (x y : JS.number) : JS.lt x y = true -> JS.ge y x = true.
Proof.
  intros H. pose proof (lt_asym _ _ H) as H'. unfold JS.ge. rewrite H'.
  destruct x, y; try reflexivity; discriminate.
Qed.

Section Sort.
Context {A : Type} (key : A -> JS.number).

Let cmp (a b : A) : JS.number := d3_descending (key a) (key b).
Let R (a b : A) : Prop := JS.ge (key a) (key b) = true.

Lemma sortInsert_Permutation a l : Permutation (sortInsert cmp a l) (a :: l).
Proof.
  induction l as [|b l IH]; simpl; [reflexivity|].
  destruct (above0 (cmp a b)); [|reflexivity].
  rewrite IH. apply perm_swap.
Qed.

Lemma sort_Permutation l : Permutation (sort cmp l) l.
Proof.
  induction l as [|a l IH]; simpl; [reflexivity|].
  rewrite sortInsert_Permutation. now constructor.
Qed.

Lemma sortInsert_Sorted a l :
  key a <> JS.NaN -> List.Forall (fun b => key b <> JS.NaN) l ->
  Sorted R l -> Sorted R (sortInsert cmp a l).
Proof.
  intros Ha Hl Hs. induction Hs as [|b l Hs IH Hd]; simpl.
  - repeat constructor.
  - inversion Hl as [|? ? Hb Hl']; subst.
    unfold cmp at 1. rewrite above0_descending by assumption.
    destruct (JS.lt (key a) (key b)) eqn:E.
    + constructor; [now apply IH|].
      destruct l as [|c l]; simpl.
      * constructor. now apply ge_of_lt.
      * destruct (above0 (cmp a c)); constructor.
        -- now inversion Hd.
        -- now apply ge_of_lt.
    + constructor; [now constructor|]. constructor. now apply ge_of_not_lt.
Qed.

(** The stable sort under [d3.descending] of the keys leaves no element
    before one with a larger key, provided no key is NaN. *)
Lemma sort_Sorted l :
  List.Forall (fun b => key b <> JS.NaN) l -> Sorted R (sort cmp l).
Proof.
  induction l as [|a l IH]; intros H; simpl; [constructor|].
  inversion H as [|? ? Ha Hl]; subst.
  apply sortInsert_Sorted; [exact Ha| |now apply IH].
  eapply Permutation_Forall; [|exact Hl]. symmetry. apply sort_Permutation.
Qed.

Lemma Sorted_adjacent (l : list A) i a b :
  Sorted R l -> l !! i = Some a -> l !! (S i) = Some b -> R a b.
Proof.
  intros Hs. revert i. induction Hs as [|c l Hs IH Hd]; intros i Ha Hb; [discriminate|].
  destruct i as [|i]; simpl in *.
  - inversion Ha; subst c. destruct l as [|c l]; [discriminate|].
    simpl in Hb. inversion Hb; subst c. now inversion Hd.
  - eauto.
Qed.

End Sort.

(** ** The agreement table *)

Lemma round64_not_NaN q : JS.round64 q <> JS.NaN.
Proof.
  unfold JS.round64. destruct (Qnum q); [discriminate| |].
  - destruct (JS.round64_pos q); discriminate.
  - destruct (JS.round64_pos (- q)); discriminate.
Qed.

Section AgreementTable.
Context `{host : Host}.

Lemma data_agree_not_NaN rows :
  List.Forall (fun dv => agree (datum dv) <> JS.NaN) (map enterDiv (data rows)).
Proof.
  apply List.Forall_forall. intros dv Hdv.
  apply in_map_iff in Hdv as ([k fr] & <- & Hd).
  destruct (data_inv _ _ _ Hd) as (a & b & c & _ & _ & _ & _ & Hs & ->).
  unfold agree. simpl. rewrite divide_round64 by lia. apply round64_not_NaN.
Qed.

(** C7: the rows of the agreement table are the entries of the
    cross-tabulation, in an order in which the agree fraction, the one at
    index 2, never goes up from a row to the next. *)
Theorem agreement_table_descending (rows : list obj) (container : list element) :
  exists divs : list langDiv,
    renderAgreementTable rows container = (container ++ [section divs])%list /\
    Permutation divs (map enterDiv (data rows)) /\
    forall i d1 d2,
      divs !! i = Some d1 -> divs !! (S i) = Some d2 ->
      JS.ge (agree (datum d1)) (agree (datum d2)) = true.
Proof.
  eexists. split; [reflexivity|]. split.
  - apply (sort_Permutation (fun dv => agree (datum dv))).
  - intros i d1 d2 H1 H2.
    refine (Sorted_adjacent (fun dv => agree (datum dv)) _ i d1 d2 _ H1 H2).
    apply (sort_Sorted (fun dv => agree (datum dv))), data_agree_not_NaN.
Qed.

(** What normalisation makes of the three answers of a raw record. *)
Lemma normalized_answers r b g f :
  answers r b g f ->
  exists n,
    normalized r = Return n /\
    prop n fields.beliefs = VList (JS.split listSeparator b) /\
    prop n fields.humangood = VNum (JS.StringToNumber g) /\
    prop n fields.favlang = VStr (parseLang f).
Proof.
  intros (Hraw & Hb & Hg & Hf). rewrite normalized_content.
  destruct (parseRow_content_raw r Hraw) as [n E]. exists n. split; [exact E|].
  apply parseRow_content_inv in E as (HM & HN & _ & (s & Hs & Hl) & _).
  unfold prop in *. repeat split.
  - destruct (HM fields.beliefs) as (s' & Hs' & Hl'); [left|].
    rewrite Hb in Hs'. simpl in Hs'. inversion Hs'; subst s'. now rewrite Hl'.
  - rewrite (HN fields.humangood) by compute_done. now rewrite Hg.
  - rewrite Hf in Hs. simpl in Hs. inversion Hs; subst s. now rewrite Hl.
Qed.

(** C2: four raw records that answer as in the example normalise, and the
    cross-tabulation of the four normalised records holds, for the key
    [go] and no other, the counts 1, 1, 2 for disagree, neutral, agree;
    their total 4 is above 3, so the entry is kept, with the fractions
    1/4, 1/4 and 1/2. *)
Theorem crosstab_example (r1 r2 r3 r4 : obj) :
  answers r1 "Christian;Liberal" "4" "Go" ->
  answers r2 "Atheist" "2" "Go" ->
  answers r3 "Christian" "3" "Go" ->
  answers r4 "Christian" "5" "Go" ->
  exists n1 n2 n3 n4,
    normalized r1 = Return n1 /\ normalized r2 = Return n2 /\
    normalized r3 = Return n3 /\ normalized r4 = Return n4 /\
    stats [n1; n2; n3; n4] = [("go", [1; 1; 2]%Z)] /\
    d3_sum [1; 1; 2]%Z = 4%Z /\ (3 <? d3_sum [1; 1; 2])%Z = true /\
    data [n1; n2; n3; n4] = [("go", [JS.Fin (1 # 4); JS.Fin (1 # 4); JS.Fin (1 # 2)])].
Proof.
  intros H1 H2 H3 H4.
  destruct (normalized_answers _ _ _ _ H1) as (n1 & E1 & _ & G1 & F1).
  destruct (normalized_answers _ _ _ _ H2) as (n2 & E2 & _ & G2 & F2).
  destruct (normalized_answers _ _ _ _ H3) as (n3 & E3 & _ & G3 & F3).
  destruct (normalized_answers _ _ _ _ H4) as (n4 & E4 & _ & G4 & F4).
  exists n1, n2, n3, n4. repeat (split; [assumption|]).
  assert (S : stats [n1; n2; n3; n4] = [("go", [1; 1; 2]%Z)]).
  { unfold stats, tally, binOf, makeHasOpinion. simpl List.filter.
    rewrite G1, G2, G3, G4. simpl List.filter. simpl fold_left.
    rewrite G1, G2, G3, G4, F1, F2, F3, F4. reflexivity. }
  split; [exact S|]. split; [reflexivity|]. split; [reflexivity|].
  unfold data. rewrite S. reflexivity.
Qed.

End AgreementTable.

(** ** The load handler *)

(** C1: the handler calls [renderResponseStream] and nothing else: when it
    returns on rows that were loaded, the container has gained one [svg] and
    no [section]. On the four rows of the worked example that is one [svg]
    with a path for each group, where [renderAgreementTable] would have
    added the row for [go]. *)
Theorem callback_renders_stream_only :
  (forall (host : Host) error rows container,
     match callback error (Some rows) container with
     | Return c => exists paths, c = (container ++ [svg 960 400 paths])%list
     | Throw => True
     end) /\
  callback None (Some (loaded exampleRaws)) [] = Return [svg 960 400 ["true"; "false"]] /\
  renderAgreementTable (loaded exampleRaws) [] =
  [section [ {| datum := ("go", [JS.Fin (1 # 4); JS.Fin (1 # 4); JS.Fin (1 # 2)]);
                bars := [(0, JS.Fin 25); (1, JS.Fin 25); (2, JS.Fin 50)];
                label := "go" |} ]].
Proof.
  split; [|split].
  - intros host error rows container. unfold callback, renderResponseStream.
    destruct (nest rows) as [g|]; [|exact I].
    destruct (layout g) as [paths|]; [|exact I]. now exists paths.
  - vm_compute. reflexivity.
  - vm_compute. reflexivity.
Qed.

(** ** The worked example, evaluated *)

Lemma crosstab_example_witness :
  answers (rawRow "2014/04/25 11:44:09 AM AST" "Christian;Liberal" "4" "Go")
          "Christian;Liberal" "4" "Go" /\
  answers (rawRow "2014/04/25 11:44:09 AM AST" "Atheist" "2" "Go") "Atheist" "2" "Go" /\
  answers (rawRow "2014/04/25 11:44:09 AM AST" "Christian" "3" "Go") "Christian" "3" "Go" /\
  answers (rawRow "2014/04/25 11:44:09 AM AST" "Christian" "5" "Go") "Christian" "5" "Go" /\
  exists n1 n2 n3 n4,
    normalized (rawRow "2014/04/25 11:44:09 AM AST" "Christian;Liberal" "4" "Go") = Return n1 /\
    normalized (rawRow "2014/04/25 11:44:09 AM AST" "Atheist" "2" "Go") = Return n2 /\
    normalized (rawRow "2014/04/25 11:44:09 AM AST" "Christian" "3" "Go") = Return n3 /\
    normalized (rawRow "2014/04/25 11:44:09 AM AST" "Christian" "5" "Go") = Return n4 /\
    stats [n1; n2; n3; n4] = [("go", [1; 1; 2]%Z)] /\
    d3_sum [1; 1; 2]%Z = 4%Z /\ (3 <? d3_sum [1; 1; 2])%Z = true /\
    data [n1; n2; n3; n4] = [("go", [JS.Fin (1 # 4); JS.Fin (1 # 4); JS.Fin (1 # 2)])].
Proof.
  assert (H1 : answers (rawRow "2014/04/25 11:44:09 AM AST" "Christian;Liberal" "4" "Go")
                       "Christian;Liberal" "4" "Go")
    by (repeat split; vm_compute; reflexivity).
  assert (H2 : answers (rawRow "2014/04/25 11:44:09 AM AST" "Atheist" "2" "Go") "Atheist" "2" "Go")
    by (repeat split; vm_compute; reflexivity).
  assert (H3 : answers (rawRow "2014/04/25 11:44:09 AM AST" "Christian" "3" "Go") "Christian" "3" "Go")
    by (repeat split; vm_compute; reflexivity).
  assert (H4 : answers (rawRow "2014/04/25 11:44:09 AM AST" "Christian" "5" "Go") "Christian" "5" "Go")
    by (repeat split; vm_compute; reflexivity).
  split; [exact H1|]. split; [exact H2|]. split; [exact H3|]. split; [exact H4|].
  exact (crosstab_example _ _ _ _ H1 H2 H3 H4).
Defined.

Lemma data_retained_normalized_witness :
  In ("go", [JS.Fin (1 # 4); JS.Fin (1 # 4); JS.Fin (1 # 2)]) (data (loaded exampleRaws)) /\
  exists a b c : Z,
    a = counted (loaded exampleRaws) "go" 0 /\
    b = counted (loaded exampleRaws) "go" 1 /\
    c = counted (loaded exampleRaws) "go" 2 /\
    Obj.get (stats (loaded exampleRaws)) "go" = Some [a; b; c] /\
    (3 < a + b + c)%Z /\
    (inject_Z a / inject_Z (a + b + c) + inject_Z b / inject_Z (a + b + c)
     + inject_Z c / inject_Z (a + b + c) == 1)%Q /\
    exists x y z : Q,
      [JS.Fin (1 # 4); JS.Fin (1 # 4); JS.Fin (1 # 2)] = [JS.Fin x; JS.Fin y; JS.Fin z] /\
      JS.Fin x = JS.round64 (inject_Z a / inject_Z (a + b + c)) /\
      JS.Fin y = JS.round64 (inject_Z b / inject_Z (a + b + c)) /\
      JS.Fin z = JS.round64 (inject_Z c / inject_Z (a + b + c)) /\
      (Qabs (x + y + z - 1) <= 3 * JS.pow2 (-53))%Q.
Proof.
  assert (H : In ("go", [JS.Fin (1 # 4); JS.Fin (1 # 4); JS.Fin (1 # 2)])
                 (data (loaded exampleRaws)))
    by (vm_compute; left; reflexivity).
  split; [exact H|].
  exact (data_retained_normalized (loaded exampleRaws) "go" _ H).
Defined.

(** Two languages: [ruby], tallied after [go], has the larger agree
    fraction and is shown first. A language below four answers is left
    out. *)
Example agreement_table_two_languages :
  stats (loaded (exampleRaws ++ moreRaws
                 ++ [rawRow "2014/04/25 11:44:09 AM AST" "Atheist" "5" "Haskell"]))
  = [("go", [1; 1; 2]%Z); ("ruby", [1; 0; 3]%Z); ("haskell", [0; 0; 1]%Z)] /\
  renderAgreementTable
    (loaded (exampleRaws ++ moreRaws
             ++ [rawRow "2014/04/25 11:44:09 AM AST" "Atheist" "5" "Haskell"])) []
  = [section [ {| datum := ("ruby", [JS.Fin (1 # 4); JS.Fin 0; JS.Fin (3 # 4)]);
                  bars := [(0, JS.Fin 25); (1, JS.Fin 0); (2, JS.Fin 75)];
                  label := "ruby" |};
               {| datum := ("go", [JS.Fin (1 # 4); JS.Fin (1 # 4); JS.Fin (1 # 2)]);
                  bars := [(0, JS.Fin 25); (1, JS.Fin 25); (2, JS.Fin 50)];
                  label := "go" |} ]].
Proof. split; vm_compute; reflexivity. Qed.

(** * Further properties *)

(** ** [parseList] *)

Lemma split_not_nil sep s : JS.split sep s <> [].
Proof.
  destruct s as [|c s]; simpl; [discriminate|].
  destruct (sep c); [discriminate|]. destruct (JS.split sep s); discriminate.
Qed.

Lemma split_length sep s :
  length (JS.split sep s) = S (length (List.filter sep (chars s))).
Proof.
  induction s as [|c s IH]; simpl; [reflexivity|].
  destruct (sep c); simpl; [now rewrite IH|].
  destruct (JS.split sep s) as [|p ps] eqn:E; [now apply split_not_nil in E|].
  simpl in *. exact IH.
Qed.

Lemma split_clean sep s p c :
  In p (JS.split sep s) -> In c (chars p) -> sep c = false.
Proof.
  revert p. induction s as [|a s IH]; simpl; intros p Hp Hc.
  - destruct Hp as [<- | []]. destruct Hc.
  - destruct (sep a) eqn:Ea.
    + destruct Hp as [<- | Hp]; [destruct Hc | eauto].
    + destruct (JS.split sep s) as [|q qs] eqn:E; [now apply split_not_nil in E|].
      destruct Hp as [<- | Hp].
      * simpl in Hc. destruct Hc as [<- | Hc]; [exact Ea|]. apply (IH q); [now left | exact Hc].
      * apply (IH p); [now right | exact Hc].
Qed.

Lemma join_cons sep p q qs :
  JS.join sep (p :: q :: qs) = p +:+ sep +:+ JS.join sep (q :: qs).
Proof. reflexivity. Qed.

(** Putting the separator back between the pieces gives the string back,
    when the string uses one separator only. *)
Lemma split_join sep d s :
  (forall c, In c (chars s) -> sep c = true -> c = d) ->
  JS.join (String d "") (JS.split sep s) = s.
Proof.
  induction s as [|a s IH]; intros H; [reflexivity|].
  assert (IH' : JS.join (String d "") (JS.split sep s) = s).
  { apply IH. intros c Hc. apply H. now right. }
  simpl JS.split. destruct (sep a) eqn:Ea.
  - rewrite (H a) in * by (try left; auto).
    destruct (JS.split sep s) as [|q qs] eqn:E; [now apply split_not_nil in E|].
    rewrite join_cons, IH'. reflexivity.
  - destruct (JS.split sep s) as [|q qs] eqn:E; [now apply split_not_nil in E|].
    destruct qs as [|q' qs].
    + simpl in *. now rewrite IH'.
    + rewrite join_cons in *. rewrite <- IH'. reflexivity.
Qed.

(** X1: [parseList] of a string returns a list with one piece more than
    the string has separators, so never an empty list; no piece holds a
    [;] or a [,]; a string without separators comes back as its only
    piece. *)
Theorem parseList_pieces (s : string) :
  exists l,
    parseList (VStr s) = Return (VList l) /\
    length l = S (length (List.filter listSeparator (chars s))) /\
    (forall p c, In p l -> In c (chars p) -> c <> ";"%char /\ c <> ","%char) /\
    ((forall c, In c (chars s) -> c <> ";"%char /\ c <> ","%char) -> l = [s]).
Proof.
  exists (JS.split listSeparator s). split; [reflexivity|].
  split; [apply split_length|]. split.
  - intros p c Hp Hc. pose proof (split_clean _ _ _ _ Hp Hc) as H.
    unfold listSeparator in H. apply orb_false_elim in H as [H1 H2].
    split; intros ->; discriminate.
  - intros H. induction s as [|a s IH]; [reflexivity|]. simpl.
    assert (Ha : listSeparator a = false).
    { destruct (H a (or_introl eq_refl)) as [H1 H2]. unfold listSeparator.
      apply orb_false_intro; now apply Ascii.eqb_neq. }
    rewrite Ha, IH; [reflexivity|]. intros c Hc. apply H. now right.
Qed.

(** X2: joining the pieces of [parseList] with the separator gives the
    string back, when the string uses only one of the two separators. *)
Theorem parseList_join (d : ascii) (s : string) :
  (forall c, In c (chars s) -> listSeparator c = true -> c = d) ->
  exists l, parseList (VStr s) = Return (VList l) /\ JS.join (String d "") l = s.
Proof.
  intros H. exists (JS.split listSeparator s). split; [reflexivity|].
  now apply split_join.
Qed.

Lemma parseList_join_witness :
  (forall c, In c (chars "Christian;Liberal;Moderate") -> listSeparator c = true ->
     c = ";"%char) /\
  exists l,
    parseList (VStr "Christian;Liberal;Moderate") = Return (VList l) /\
    JS.join ";" l = "Christian;Liberal;Moderate".
Proof.
  assert (H : forall c, In c (chars "Christian;Liberal;Moderate") ->
                listSeparator c = true -> c = ";"%char).
  { intros c Hc. simpl in Hc.
    repeat (destruct Hc as [<- | Hc]; [vm_compute; intros E; (reflexivity || discriminate E)|]).
    destruct Hc. }
  split; [exact H|]. exact (parseList_join ";" "Christian;Liberal;Moderate" H).
Defined.

(** ** [langPatterns] and [parseLang] *)

Lemma append_assoc s1 s2 s3 : (s1 +:+ s2) +:+ s3 = s1 +:+ (s2 +:+ s3).
Proof.
  induction s1 as [|c s1 IH]; [reflexivity|].
  rewrite !RegexFacts.append_cons. now rewrite IH.
Qed.

Lemma matches_Eps_inv p : JS.matches JS.Eps p -> p = "".
Proof. intros H. now inversion H. Qed.

Lemma matches_Chr_inv c p : JS.matches (JS.Chr c) p -> p = String c "".
Proof. intros H. now inversion H. Qed.

Lemma matches_Seq_inv r1 r2 p :
  JS.matches (JS.Seq r1 r2) p ->
  exists p1 p2, p = p1 +:+ p2 /\ JS.matches r1 p1 /\ JS.matches r2 p2.
Proof. intros H. inversion H; subst. eauto. Qed.

Lemma matches_Alt_inv r1 r2 p :
  JS.matches (JS.Alt r1 r2) p -> JS.matches r1 p \/ JS.matches r2 p.
Proof. intros H. inversion H; subst; auto. Qed.

(** A literal matches itself and nothing else. *)
Lemma matches_Lit s : forall p, JS.matches (JS.Lit s) p <-> p = s.
Proof.
  induction s as [|c s IH]; intros p.
  - simpl. split; [apply matches_Eps_inv | intros ->; constructor].
  - destruct s as [|c' s].
    + simpl. split; [apply matches_Chr_inv | intros ->; constructor].
    + change (JS.Lit (String c (String c' s)))
        with (JS.Seq (JS.Chr c) (JS.Lit (String c' s))). split.
      * intros H. apply matches_Seq_inv in H as (p1 & p2 & -> & H1 & H2).
        apply matches_Chr_inv in H1. apply IH in H2. now subst.
      * intros ->. change (String c (String c' s)) with (String c "" +:+ String c' s).
        constructor; [constructor | now apply IH].
Qed.

(** A pattern whose matches all start with a text that it also matches
    is found exactly where the text occurs. *)
Lemma test_occurs r needle :
  JS.matches r needle ->
  (forall p, JS.matches r p -> exists q, p = needle +:+ q) ->
  forall s, JS.test r s = true <-> occurs needle s.
Proof.
  intros Hn Hp s. rewrite RegexFacts.test_spec. unfold occurs. split.
  - intros (a & p & b & -> & H). destruct (Hp p H) as [q ->].
    exists a, (q +:+ b). now rewrite append_assoc.
  - intros (a & b & ->). now exists a, needle, b.
Qed.

Lemma test_cpp s :
  JS.test (JS.Seq (JS.Chr "c") (JS.Plus (JS.Chr "+"))) s = true <-> occurs "c+" s.
Proof.
  apply test_occurs.
  - change "c+" with ("c" +:+ ("+" +:+ "")). repeat constructor.
  - intros p H. apply matches_Seq_inv in H as (p1 & p2 & -> & H1 & H2).
    apply matches_Chr_inv in H1. subst p1.
    apply matches_Seq_inv in H2 as (p3 & p4 & -> & H3 & H4).
    apply matches_Chr_inv in H3. subst p3. now exists p4.
Qed.

Lemma test_go s :
  JS.test (JS.Seq (JS.Lit "go") (JS.Alt JS.Eps (JS.Lit "lang"))) s = true <-> occurs "go" s.
Proof.
  apply test_occurs.
  - change "go" with ("go" +:+ ""). constructor; [now apply matches_Lit|].
    apply JS.matches_Alt_l. constructor.
  - intros p H. apply matches_Seq_inv in H as (p1 & p2 & -> & H1 & H2).
    apply matches_Lit in H1. subst p1. now exists p2.
Qed.

Lemma test_python s :
  JS.test (JS.Seq (JS.Lit "pyth") (JS.Star JS.Dot)) s = true <-> occurs "pyth" s.
Proof.
  apply test_occurs.
  - change "pyth" with ("pyth" +:+ ""). constructor; [now apply matches_Lit | constructor].
  - intros p H. apply matches_Seq_inv in H as (p1 & p2 & -> & H1 & H2).
    apply matches_Lit in H1. subst p1. now exists p2.
Qed.

Lemma test_csharp s :
  JS.test (JS.Alt (JS.Lit "c#") (JS.Lit ".net")) s = true <-> occurs "c#" s \/ occurs ".net" s.
Proof.
  rewrite RegexFacts.test_spec. unfold occurs. split.
  - intros (a & p & b & -> & H). apply matches_Alt_inv in H as [H | H];
      apply matches_Lit in H; subst p; [left | right]; eauto.
  - intros [(a & b & ->) | (a & b & ->)].
    + exists a, "c#", b. split; [reflexivity|]. apply JS.matches_Alt_l. now apply matches_Lit.
    + exists a, ".net", b. split; [reflexivity|]. apply JS.matches_Alt_r. now apply matches_Lit.
Qed.

(** What [.*] matches: any run without a line terminator. *)
Lemma matches_Star_Dot m :
  JS.matches (JS.Star JS.Dot) m <-> Forall (fun c => JS.isLineTerminator c = false) (chars m).
Proof.
  split.
  - induction m as [|c m IH]; intros H; [constructor|].
    apply RegexFacts.matches_Star_cons in H as (s1 & s2 & -> & H1 & H2).
    inversion H1; subst. rewrite RegexFacts.append_nil_l in *.
    simpl. constructor; [assumption | now apply IH].
  - induction m as [|c m IH]; intros H; [constructor|].
    simpl in H. apply Forall_cons in H as [Hc Hm].
    change (String c m) with (String c "" +:+ m). constructor; [now constructor | now apply IH].
Qed.

Lemma test_objective s :
  JS.test (JS.Seq (JS.Lit "objective") (JS.Seq (JS.Star JS.Dot) (JS.Chr "c"))) s = true <->
  occursOnLine "objective" "c" s.
Proof.
  rewrite RegexFacts.test_spec. unfold occursOnLine. split.
  - intros (a & p & b & -> & H).
    apply matches_Seq_inv in H as (p1 & p2 & -> & H1 & H2).
    apply matches_Lit in H1. subst p1.
    apply matches_Seq_inv in H2 as (m & p3 & -> & H2 & H3).
    apply matches_Chr_inv in H3. subst p3. apply matches_Star_Dot in H2.
    exists a, m, b. split; [|exact H2].
    now rewrite !append_assoc.
  - intros (a & m & b & -> & H). exists a, ("objective" +:+ m +:+ "c"), b. split.
    + now rewrite !append_assoc.
    + constructor; [now apply matches_Lit|].
      constructor; [now apply matches_Star_Dot | constructor].
Qed.

(** X3: each pattern of [langPatterns] says where a text occurs: [c+] for
    [c++]; [go] for [go], whose alternative [lang] adds nothing; [pyth] for
    [python]; [c#] or [.net] for [c#]; and for [objective-c] the text
    [objective] followed, on the same line, by a [c]. *)
Theorem langPatterns_occurrences (s : string) :
  exists cpp objc go py cs,
    langPatterns = [("c++", cpp); ("objective-c", objc); ("go", go); ("python", py); ("c#", cs)] /\
    (JS.test cpp s = true <-> occurs "c+" s) /\
    (JS.test objc s = true <-> occursOnLine "objective" "c" s) /\
    (JS.test go s = true <-> occurs "go" s) /\
    (JS.test py s = true <-> occurs "pyth" s) /\
    (JS.test cs s = true <-> occurs "c#" s \/ occurs ".net" s).
Proof.
  do 5 eexists. split; [reflexivity|].
  split; [apply test_cpp|]. split; [apply test_objective|].
  split; [apply test_go|]. split; [apply test_python | apply test_csharp].
Qed.

Lemma test_false_iff r s P : (JS.test r s = true <-> P) -> ~ P -> JS.test r s = false.
Proof. intros H N. destruct (JS.test r s); [exfalso; apply N; now apply H | reflexivity]. Qed.

(** X4: [parseLang] as a list of questions about the lower-cased, trimmed
    response, asked in this order: does [c+] occur, does [objective] occur
    with a [c] after it on the line, does [go] occur, does [pyth] occur,
    does [c#] or [.net] occur. The first yes gives the tag; five noes let
    the response through. *)
Theorem parseLang_decision (x : string) :
  let s := JS.toLowerCase (JS.trim x) in
  (occurs "c+" s -> parseLang x = "c++") /\
  (~ occurs "c+" s -> occursOnLine "objective" "c" s -> parseLang x = "objective-c") /\
  (~ occurs "c+" s -> ~ occursOnLine "objective" "c" s -> occurs "go" s ->
   parseLang x = "go") /\
  (~ occurs "c+" s -> ~ occursOnLine "objective" "c" s -> ~ occurs "go" s ->
   occurs "pyth" s -> parseLang x = "python") /\
  (~ occurs "c+" s -> ~ occursOnLine "objective" "c" s -> ~ occurs "go" s ->
   ~ occurs "pyth" s -> occurs "c#" s \/ occurs ".net" s -> parseLang x = "c#") /\
  (~ occurs "c+" s -> ~ occursOnLine "objective" "c" s -> ~ occurs "go" s ->
   ~ occurs "pyth" s -> ~ (occurs "c#" s \/ occurs ".net" s) -> parseLang x = s).
Proof.
  intros s. unfold parseLang. fold s. cbn [parseLang_loop langPatterns].
  repeat split.
  - intros H. now rewrite (proj2 (test_cpp s) H).
  - intros N1 H. rewrite (test_false_iff _ _ _ (test_cpp s) N1).
    now rewrite (proj2 (test_objective s) H).
  - intros N1 N2 H. rewrite (test_false_iff _ _ _ (test_cpp s) N1).
    rewrite (test_false_iff _ _ _ (test_objective s) N2).
    now rewrite (proj2 (test_go s) H).
  - intros N1 N2 N3 H. rewrite (test_false_iff _ _ _ (test_cpp s) N1).
    rewrite (test_false_iff _ _ _ (test_objective s) N2).
    rewrite (test_false_iff _ _ _ (test_go s) N3).
    now rewrite (proj2 (test_python s) H).
  - intros N1 N2 N3 N4 H. rewrite (test_false_iff _ _ _ (test_cpp s) N1).
    rewrite (test_false_iff _ _ _ (test_objective s) N2).
    rewrite (test_false_iff _ _ _ (test_go s) N3).
    rewrite (test_false_iff _ _ _ (test_python s) N4).
    now rewrite (proj2 (test_csharp s) H).
  - intros N1 N2 N3 N4 N5. rewrite (test_false_iff _ _ _ (test_cpp s) N1).
    rewrite (test_false_iff _ _ _ (test_objective s) N2).
    rewrite (test_false_iff _ _ _ (test_go s) N3).
    rewrite (test_false_iff _ _ _ (test_python s) N4).
    now rewrite (test_false_iff _ _ _ (test_csharp s) N5).
Qed.

(** X5: what [parseLang] returns is in canonical form: lower-casing or
    trimming it changes nothing. It is one of the five tags or the
    lower-cased, trimmed response. *)
Theorem parseLang_canonical (x : string) :
  JS.toLowerCase (parseLang x) = parseLang x /\
  JS.trim (parseLang x) = parseLang x /\
  (In (parseLang x) ["c++"; "objective-c"; "go"; "python"; "c#"] \/
   parseLang x = JS.toLowerCase (JS.trim x)).
Proof.
  unfold parseLang.
  destruct (parseLang_loop_cases (JS.toLowerCase (JS.trim x)) langPatterns) as [H | H].
  - remember (parseLang_loop (JS.toLowerCase (JS.trim x)) langPatterns) as y eqn:Ey.
    clear Ey. split; [|split; [|now left]];
      simpl in H; destruct H as [H|[H|[H|[H|[H|[]]]]]]; subst y; reflexivity.
  - rewrite H. split; [apply JSFacts.toLowerCase_idem|]. split; [|now right].
    now rewrite JSFacts.trim_toLowerCase, JSFacts.trim_idem.
Qed.

(** X6: responses that differ only in case, or only in the white space
    around them, get the same tag. *)
Theorem parseLang_case_and_space (x y : string) :
  JS.toLowerCase x = JS.toLowerCase y \/ JS.trim x = JS.trim y ->
  parseLang x = parseLang y.
Proof.
  unfold parseLang. intros [H | H].
  - now rewrite <- !JSFacts.trim_toLowerCase, H.
  - now rewrite H.
Qed.

Lemma parseLang_case_and_space_witness :
  (JS.toLowerCase " Objective-C" = JS.toLowerCase " OBJECTIVE-c" \/
   JS.trim " Objective-C" = JS.trim " OBJECTIVE-c") /\
  parseLang " Objective-C" = parseLang " OBJECTIVE-c".
Proof.
  assert (H : JS.toLowerCase " Objective-C" = JS.toLowerCase " OBJECTIVE-c" \/
              JS.trim " Objective-C" = JS.trim " OBJECTIVE-c") by (left; reflexivity).
  split; [exact H|]. exact (parseLang_case_and_space _ _ H).
Defined.

(** ** [update] and [parseRow] *)


Section ParseRowMore.
Context `{host : Host}.





(** X9: [parseRow] is not to be called twice on a record: once it has
    returned, the multi-valued cells hold arrays, and a second call on the
    same record throws. *)
Theorem parseRow_twice_throws (d d1 : loc) (h h1 : heap) :
  parseRow d h = Return (d1, h1) -> parseRow d1 h1 = Throw.
Proof.
  intros H. destruct (h !! d) as [r|] eqn:E.
  - rewrite (parseRow_content_spec _ _ _ E) in H.
    destruct (parseRow_content r) as [r'|] eqn:E'; [|discriminate].
    inversion H; subst d1 h1.
    rewrite (parseRow_content_spec _ _ r') by apply lookup_insert_eq.
    apply parseRow_content_inv in E' as (HM & _).
    destruct (HM fields.beliefs) as (s & _ & Hl); [left|].
    unfold parseRow_content. simpl. unfold updated at 1, prop. now rewrite Hl.
  - rewrite (parseRow_dangling _ _ E) in H. discriminate.
Qed.

Lemma updatedEach_dom f fs : forall (r r' : obj),
  updatedEach fs f r = Return r' -> dom r' = dom r ∪ list_to_set fs.
Proof.
  induction fs as [|k fs IH]; intros r r' H; simpl in H.
  - inversion H. set_solver.
  - unfold updated in H. destruct (f (prop r k)) as [v|]; [|discriminate].
    rewrite (IH _ _ H), dom_insert_L. set_solver.
Qed.

Lemma parseLang_fixed s : parseLang (parseLang s) = parseLang s.
Proof.
  unfold parseLang at 2 3.
  pose proof (parseLang_loop_cases (JS.toLowerCase (JS.trim s)) langPatterns) as H.
  remember (parseLang_loop (JS.toLowerCase (JS.trim s)) langPatterns) as y eqn:Ey.
  destruct H as [H | H].
  - simpl in H. destruct H as [H|[H|[H|[H|[H|[]]]]]]; rewrite <- H; reflexivity.
  - rewrite H at 1. unfold parseLang. rewrite toLowerCase_trim_fixed. now symmetry.
Qed.

(** X10: a record that [parseRow] has returned is typed: the two
    multi-valued cells hold arrays that are not empty, the fifteen numeric
    cells hold Numbers, [Timestamp] holds a date or [null], and the
    favourite language holds a string that [parseLang] maps to itself. Its
    keys are those of the raw record and the fields that [parseRow]
    writes. *)
Theorem normalized_typed (r r' : obj) :
  normalized r = Return r' ->
  (forall k, k ∈ multiValuedFields -> exists l, r' !! k = Some (VList l) /\ l <> []) /\
  (forall k, k ∈ numericFields -> exists n, r' !! k = Some (VNum n)) /\
  (r' !! "Timestamp" = Some VNull \/ exists t, r' !! "Timestamp" = Some (VDate t)) /\
  (exists s, r' !! fields.favlang = Some (VStr s) /\ parseLang s = s) /\
  dom r' = dom r ∪ list_to_set touched.
Proof.
  rewrite normalized_content. intros H.
  pose proof H as H'. apply parseRow_content_inv in H' as (HM & HN & (v & Hv & Lv) & (s & Hs & Ls) & _).
  split; [|split; [|split; [|split]]].
  - intros k Hk. destruct (HM k Hk) as (s' & _ & L). eexists. split; [exact L|].
    apply split_not_nil.
  - intros k Hk. eexists. exact (HN k Hk).
  - unfold timeFormat_parse_value in Hv. rewrite Lv.
    destruct (prop r "Timestamp") as [| |st| |l|]; try discriminate.
    + inversion Hv. destruct (timeFormat_parse st); [right; eauto | now left].
    + destruct l; [|discriminate]. inversion Hv. now left.
  - exists (parseLang s). split; [exact Ls | apply parseLang_fixed].
  - unfold parseRow_content in H.
    destruct (updatedEach multiValuedFields parseList r) as [r1|] eqn:E1; [|discriminate].
    destruct (updatedEach numericFields _ r1) as [r2|] eqn:E2; [|discriminate].
    unfold updated in H.
    destruct (timeFormat_parse_value (prop r2 "Timestamp")) as [vt|]; [|discriminate].
    destruct (parseLang_value _) as [vl|]; [|discriminate].
    inversion H; subst r'.
    apply updatedEach_dom in E1, E2. rewrite !dom_insert_L, E2, E1.
    unfold touched. rewrite !list_to_set_app_L. set_solver.
Qed.

(** X11: normalisation does not change who has an opinion: on a record
    that [parseRow] has returned, [hasOpinion] of a numeric field answers
    as it does on the raw record. *)
Theorem hasOpinion_normalized_same (r r' : obj) (belief : string) :
  normalized r = Return r' ->
  belief ∈ numericFields ->
  makeHasOpinion belief r' = makeHasOpinion belief r.
Proof.
  rewrite normalized_content. intros H Hb.
  apply parseRow_content_inv in H as (_ & HN & _).
  unfold makeHasOpinion, prop at 1. now rewrite (HN _ Hb).
Qed.

End ParseRowMore.

Lemma parseRow_twice_throws_witness :
  exists r',
    parseRow 7 {[ 7 := rawRow "yesterday" "Atheist" "4" "Go" ]}
    = Return (7, <[7 := r']> {[ 7 := rawRow "yesterday" "Atheist" "4" "Go" ]}) /\
    parseRow 7 (<[7 := r']> {[ 7 := rawRow "yesterday" "Atheist" "4" "Go" ]}) = Throw.
Proof.
  destruct (parseRow_content_raw (rawRow "yesterday" "Atheist" "4" "Go") (rawRow_raw _ _ _ _))
    as [r' E].
  assert (H : parseRow 7 {[ 7 := rawRow "yesterday" "Atheist" "4" "Go" ]}
              = Return (7, <[7 := r']> {[ 7 := rawRow "yesterday" "Atheist" "4" "Go" ]})).
  { rewrite (parseRow_content_spec 7 _ (rawRow "yesterday" "Atheist" "4" "Go"))
      by apply lookup_singleton_eq.
    now rewrite E. }
  exists r'. split; [exact H|]. exact (parseRow_twice_throws _ _ _ _ H).
Defined.

Lemma normalized_typed_witness :
  exists r',
    normalized (rawRow "yesterday" "Atheist;Liberal" "4" " Go") = Return r' /\
    (exists l, r' !! fields.beliefs = Some (VList l) /\ l <> []) /\
    (exists n, r' !! fields.humangood = Some (VNum n)) /\
    (exists s, r' !! fields.favlang = Some (VStr s) /\ parseLang s = s) /\
    dom r' = dom (rawRow "yesterday" "Atheist;Liberal" "4" " Go") ∪ list_to_set touched.
Proof.
  destruct (parseRow_content_raw (rawRow "yesterday" "Atheist;Liberal" "4" " Go")
              (rawRow_raw _ _ _ _)) as [r' E].
  rewrite <- normalized_content in E.
  exists r'. split; [exact E|].
  destruct (normalized_typed _ _ E) as (HM & HN & _ & HL & HD).
  split; [apply HM; compute_done|]. split; [apply HN; compute_done|].
  split; [exact HL | exact HD].
Defined.

Lemma hasOpinion_normalized_same_witness :
  fields.humangood ∈ numericFields /\
  exists r',
    normalized (rawRow "yesterday" "Atheist" "4" "Go") = Return r' /\
    makeHasOpinion fields.humangood r'
    = makeHasOpinion fields.humangood (rawRow "yesterday" "Atheist" "4" "Go").
Proof.
  assert (H : fields.humangood ∈ numericFields) by compute_done.
  split; [exact H|].
  destruct (parseRow_content_raw (rawRow "yesterday" "Atheist" "4" "Go") (rawRow_raw _ _ _ _))
    as [r' E].
  rewrite <- normalized_content in E.
  exists r'. split; [exact E|]. exact (hasOpinion_normalized_same _ _ _ E H).
Defined.

(** ** The cross-tabulation, both ways *)

Lemma Obj_indexed_In_conv {A} (m : Obj.t A) k a i :
  In (k, a) m -> Obj.arrayIndex k = Some i -> In (i, (k, a)) (Obj.indexed m).
Proof.
  induction m as [|[k' a'] m IH]; simpl; [tauto|].
  intros [H | H] Hi.
  - inversion H; subst. rewrite Hi. apply Obj_insertIndex_In. now left.
  - destruct (Obj.arrayIndex k'); [apply Obj_insertIndex_In; right|]; auto.
Qed.

(** Enumerating an object gives each of its own properties. *)
Lemma Obj_entries_In_conv {A} (m : Obj.t A) e : In e m -> In e (Obj.entries m).
Proof.
  intros H. unfold Obj.entries. apply in_app_iff.
  destruct (Obj.arrayIndex e.1) as [i|] eqn:E.
  - left. apply in_map_iff. exists (i, e). split; [reflexivity|].
    destruct e as [k a]. now apply Obj_indexed_In_conv.
  - right. apply filter_In. split; [exact H|]. now apply bool_decide_eq_true.
Qed.

Lemma insertIndex_Permutation {A} i (e : string * A) l :
  Permutation (Obj.insertIndex i e l) ((i, e) :: l).
Proof.
  induction l as [|[j e'] l IH]; simpl; [reflexivity|].
  destruct (i <? j)%Z; [reflexivity|]. rewrite IH. apply perm_swap.
Qed.

(** Enumeration reorders the properties and does nothing else. *)
Lemma Obj_entries_Permutation {A} (m : Obj.t A) : Permutation (Obj.entries m) m.
Proof.
  unfold Obj.entries. induction m as [|[k a] m IH]; simpl; [reflexivity|].
  destruct (Obj.arrayIndex k) as [i|] eqn:E.
  - rewrite bool_decide_eq_false_2 by congruence.
    rewrite insertIndex_Permutation. simpl. now constructor.
  - rewrite bool_decide_eq_true_2 by reflexivity.
    rewrite <- Permutation_middle. now constructor.
Qed.

Lemma NoDup_keys_filter {A} (p : string * A -> bool) (l : list (string * A)) :
  NoDup (map fst l) -> NoDup (map fst (List.filter p l)).
Proof.
  induction l as [|e l IH]; simpl; [trivial|].
  intros H. apply NoDup_cons in H as [Hn H].
  destruct (p e); simpl; [|auto]. apply NoDup_cons. split; [|auto].
  intros Hin. apply Hn. apply list_elem_of_In in Hin. apply list_elem_of_In.
  apply in_map_iff in Hin as (e' & He' & Hin). apply filter_In in Hin as [Hin _].
  apply in_map_iff. eauto.
Qed.

Section CrossTabMore.
Context `{host : Host}.

Lemma data_In_iff (rows : list obj) (k : string) (fr : list JS.number) :
  In (k, fr) (data rows) <->
  inheritedKey k = false /\
  (3 < counted rows k 0 + counted rows k 1 + counted rows k 2)%Z /\
  fr = map (fun x => divide x (counted rows k 0 + counted rows k 1 + counted rows k 2))
           [counted rows k 0; counted rows k 1; counted rows k 2].
Proof.
  split.
  - intros H. destruct (data_inv _ _ _ H) as (a & b & c & E & Ha & Hb & Hc & Hs & Hfr).
    assert (Hk : inheritedKey k = false).
    { destruct (inheritedKey k) eqn:Ek; [|reflexivity].
      rewrite (stats_inherited rows k Ek) in E. discriminate. }
    pose proof (stats_counted rows k Hk) as Hc3. rewrite E in Hc3.
    destruct (_ =? 0)%Z; [discriminate|]. inversion Hc3 as [[E0 E1 E2]].
    rewrite <- E0, <- E1, <- E2. repeat split; assumption.
  - intros (Hk & Hs & ->). pose proof (stats_counted rows k Hk) as E.
    destruct (Z.eqb_spec (counted rows k 0 + counted rows k 1 + counted rows k 2) 0) as [Z0|_];
      [lia|].
    apply Obj_get_In, Obj_entries_In_conv in E. unfold data. apply in_map_iff.
    eexists (k, _). split; [|apply filter_In; split; [exact E|]].
    + simpl. unfold d3_sum. simpl. now rewrite Z.add_0_r, Z.add_assoc.
    + simpl. unfold d3_sum. simpl. rewrite Z.add_0_r, Z.add_assoc. now apply Z.ltb_lt.
Qed.

(** X12: the cross-tabulation has an entry for a language exactly when more
    than 3 of the rows with an opinion name it and its name is not one that
    a plain object inherits; the entry then holds the three counts divided
    by their total. *)
Theorem data_complete (rows : list obj) (k : string) (fr : list JS.number) :
  In (k, fr) (data rows) <->
  inheritedKey k = false /\
  (3 < counted rows k 0 + counted rows k 1 + counted rows k 2)%Z /\
  fr = [ divide (counted rows k 0) (counted rows k 0 + counted rows k 1 + counted rows k 2);
         divide (counted rows k 1) (counted rows k 0 + counted rows k 1 + counted rows k 2);
         divide (counted rows k 2) (counted rows k 0 + counted rows k 1 + counted rows k 2) ].
Proof. apply data_In_iff. Qed.

Lemma data_keys_NoDup (rows : list obj) : NoDup (map fst (data rows)).
Proof.
  unfold data. rewrite map_map. simpl.
  change (map (fun x : string * list Z => x.1)) with (@map (string * list Z) _ fst).
  apply NoDup_keys_filter.
  destruct (stats_tallies rows) as [ND _].
  eapply NoDup_Permutation_proper; [|exact ND].
  apply Permutation_map, Obj_entries_Permutation.
Qed.

(** X13: no language has two entries in the cross-tabulation, nor two rows
    in the rendered table. *)
Theorem table_keys_distinct (rows : list obj) (container : list element) :
  NoDup (map fst (data rows)) /\
  exists divs,
    renderAgreementTable rows container = (container ++ [section divs])%list /\
    NoDup (map label divs).
Proof.
  split; [apply data_keys_NoDup|]. eexists. split; [reflexivity|].
  eapply NoDup_Permutation_proper.
  - apply Permutation_map. apply (sort_Permutation (fun dv => agree (datum dv))).
  - rewrite map_map. simpl. apply data_keys_NoDup.
Qed.

Lemma counted_Permutation (rows rows' : list obj) k i :
  Permutation rows rows' -> counted rows k i = counted rows' k i.
Proof.
  intros H. unfold counted. f_equal. apply Permutation_length.
  assert (F : forall (p : obj -> bool) l l', Permutation l l' ->
                Permutation (List.filter p l) (List.filter p l')).
  { intros p l l' Hp. induction Hp; simpl.
    - reflexivity.
    - destruct (p x); [now constructor | assumption].
    - destruct (p x), (p y); try reflexivity. apply perm_swap.
    - etransitivity; eassumption. }
  now apply F, F.
Qed.

(** X14: the order of the rows does not matter to the content of the
    cross-tabulation: the same rows in another order give the same entries,
    up to their order. *)
Theorem data_Permutation (rows rows' : list obj) :
  Permutation rows rows' -> Permutation (data rows) (data rows').
Proof.
  intros H. apply NoDup_Permutation.
  - eapply NoDup_fmap_1. apply data_keys_NoDup.
  - eapply NoDup_fmap_1. apply data_keys_NoDup.
  - intros [k fr]. rewrite !list_elem_of_In, !data_In_iff.
    now rewrite !(counted_Permutation rows rows' k _ H).
Qed.

End CrossTabMore.

Lemma data_Permutation_witness :
  Permutation (loaded exampleRaws ++ loaded moreRaws)%list (loaded moreRaws ++ loaded exampleRaws)%list /\
  Permutation (data (loaded exampleRaws ++ loaded moreRaws)%list)
              (data (loaded moreRaws ++ loaded exampleRaws)%list).
Proof.
  assert (H : Permutation (loaded exampleRaws ++ loaded moreRaws)%list
                          (loaded moreRaws ++ loaded exampleRaws)%list)
    by apply Permutation_app_comm.
  split; [exact H|]. exact (data_Permutation _ _ H).
Defined.

(** ** Rounding stays within whole bounds *)

Lemma roundHalfEven_le (m : Q) (N : Z) :
  (m <= inject_Z N)%Q -> (JS.roundHalfEven m <= N)%Z.
Proof.
  intros H. unfold JS.roundHalfEven.
  pose proof (Qfloor_le m) as L.
  assert (F : (Qfloor m <= N)%Z).
  { rewrite <- (Qfloor_Z N). now apply Qfloor_resp_le. }
  assert (S : (inject_Z (Qfloor m) < m)%Q -> (Qfloor m + 1 <= N)%Z).
  { intros Hlt. assert (Hq : (inject_Z (Qfloor m) < inject_Z N)%Q) by lra.
    rewrite <- Zlt_Qlt in Hq. lia. }
  destruct (Qcompare (m - inject_Z (Qfloor m)) (1 # 2)) eqn:C.
  - apply Qeq_alt in C. destruct (Z.even (Qfloor m)); [exact F|]. apply S. lra.
  - exact F.
  - apply Qgt_alt in C. apply S. lra.
Qed.

Lemma roundHalfEven_nonneg (m : Q) : (0 <= m)%Q -> (0 <= JS.roundHalfEven m)%Z.
Proof.
  intros H. unfold JS.roundHalfEven.
  assert (F : (0 <= Qfloor m)%Z).
  { rewrite <- (Qfloor_Z 0). now apply Qfloor_resp_le. }
  destruct (Qcompare _ _); [destruct (Z.even _)| |]; lia.
Qed.

Lemma pow2_Z (e : Z) : (0 <= e)%Z -> (JS.pow2 e == inject_Z (2 ^ e))%Q.
Proof. intros H. unfold JS.pow2. now rewrite Zpower_Qpower. Qed.

Lemma pow2_inverse (e : Z) : (JS.pow2 e * JS.pow2 (- e) == 1)%Q.
Proof.
  unfold JS.pow2. rewrite <- Qpower_plus by discriminate.
  now rewrite Z.add_opp_diag_r.
Qed.

(** The binary exponent of a positive rational below a whole number is at
    most that of the whole number. *)
Lemma exponent_le (q : Q) (M : Z) :
  (0 < q)%Q -> (q <= inject_Z M)%Q -> (JS.exponent q <= Z.log2 M)%Z.
Proof.
  intros H0 H1.
  assert (HM : (0 < M)%Z).
  { rewrite Zlt_Qlt. change (inject_Z 0) with 0%Q. lra. }
  unfold JS.exponent.
  set (e0 := (Z.log2 (Qnum q) - Z.log2 (Z.pos (Qden q)))%Z).
  destruct (Qle_bool (JS.pow2 e0) q) eqn:B.
  - apply Qle_bool_iff in B. pose proof (Z.log2_nonneg M).
    destruct (Z_le_gt_dec e0 0) as [Le | Gt]; [lia|].
    rewrite pow2_Z in B by lia.
    assert (P : (inject_Z (2 ^ e0) <= inject_Z M)%Q) by lra.
    rewrite <- Zle_Qle in P. apply Z.log2_le_pow2 in P; lia.
  - assert (N : (Qnum q <= M * Z.pos (Qden q))%Z).
    { unfold Qle in H1. simpl in H1. lia. }
    assert (Pn : (0 < Qnum q)%Z).
    { unfold Qlt in H0. simpl in H0. lia. }
    pose proof (Z.log2_le_mono _ _ N) as L1.
    pose proof (Z.log2_mul_above M (Z.pos (Qden q)) ltac:(lia) ltac:(lia)) as L2.
    unfold e0. lia.
Qed.

(** A rational between 0 and a whole number below [2^53] rounds to a finite
    Number between 0 and that whole number. *)
Lemma round64_bounds (q : Q) (M : Z) :
  (0 <= q)%Q -> (q <= inject_Z M)%Q -> (0 < M < 2 ^ 53)%Z ->
  exists r, JS.round64 q = JS.Fin r /\ (0 <= r)%Q /\ (r <= inject_Z M)%Q.
Proof.
  intros H0 H1 HM. unfold JS.round64. destruct (Qnum q) as [|p|p] eqn:En.
  - exists 0%Q. split; [reflexivity|]. split; [lra|].
    change 0%Q with (inject_Z 0). rewrite <- Zle_Qle. lia.
  - assert (Hpos : (0 < q)%Q) by (unfold Qlt; rewrite En; simpl; lia).
    unfold JS.round64_pos.
    set (e := Z.max (JS.exponent q) (-1022)).
    assert (He : (e <= 52)%Z).
    { pose proof (exponent_le q M Hpos H1).
      assert (Z.log2 M < 53)%Z by (apply Z.log2_lt_pow2; lia). lia. }
    set (ulp := JS.pow2 (e - 52)).
    set (K := (2 ^ (52 - e))%Z).
    assert (Hu0 : (0 < ulp)%Q) by apply pow2_pos.
    assert (HK : (ulp * inject_Z K == 1)%Q).
    { unfold ulp, K. rewrite <- pow2_Z by lia.
      replace (52 - e)%Z with (- (e - 52))%Z by lia. apply pow2_inverse. }
    set (n := JS.roundHalfEven (q / ulp)).
    assert (Hq : (q / ulp == q * inject_Z K)%Q).
    { assert (E : (q / ulp == q / ulp * (ulp * inject_Z K))%Q) by (rewrite HK; ring).
      rewrite E. field. lra. }
    assert (K0 : (0 <= inject_Z K)%Q).
    { change 0%Q with (inject_Z 0). rewrite <- Zle_Qle. unfold K. apply Z.pow_nonneg. lia. }
    assert (Hn1 : (n <= M * K)%Z).
    { apply roundHalfEven_le. rewrite Hq, inject_Z_mult.
      apply Qmult_le_compat_r; assumption. }
    assert (Hn0 : (0 <= n)%Z).
    { apply roundHalfEven_nonneg. rewrite Hq. apply Qmult_le_0_compat; [lra | exact K0]. }
    assert (R1 : (inject_Z n * ulp <= inject_Z M)%Q).
    { rewrite <- (Qmult_1_r (inject_Z M)), <- HK.
      rewrite (Qmult_comm ulp), Qmult_assoc, <- inject_Z_mult.
      apply Qmult_le_compat_r; [|lra]. now rewrite <- Zle_Qle. }
    assert (R0 : (0 <= inject_Z n * ulp)%Q).
    { apply Qmult_le_0_compat; [|lra]. change 0%Q with (inject_Z 0). now rewrite <- Zle_Qle. }
    assert (Hb : Qle_bool (JS.pow2 1024) (inject_Z n * ulp) = false).
    { destruct (Qle_bool (JS.pow2 1024) (inject_Z n * ulp)) eqn:Eb; [|reflexivity].
      apply Qle_bool_iff in Eb.
      assert (Hs : (inject_Z (2 ^ 53) < JS.pow2 1024)%Q) by reflexivity.
      assert (Hm : (inject_Z M < inject_Z (2 ^ 53))%Q) by (rewrite <- Zlt_Qlt; lia).
      lra. }
    rewrite Hb. exists (Qred (inject_Z n * ulp)). split; [reflexivity|].
    now rewrite Qred_correct.
  - exfalso. unfold Qle in H0. rewrite En in H0. simpl in H0. lia.
Qed.

Lemma divide_fraction (a t : Z) :
  (0 <= a <= t)%Z -> (0 < t)%Z ->
  exists x, divide a t = JS.Fin x /\ (0 <= x)%Q /\ (x <= 1)%Q.
Proof.
  intros Ha Ht. rewrite divide_round64 by lia.
  assert (T : (0 < inject_Z t)%Q) by (change 0%Q with (inject_Z 0); rewrite <- Zlt_Qlt; lia).
  apply (round64_bounds _ 1).
  - apply Qle_shift_div_l; [exact T|]. rewrite Qmult_0_l.
    change 0%Q with (inject_Z 0). rewrite <- Zle_Qle. lia.
  - apply Qle_shift_div_r; [exact T|]. change (inject_Z 1) with 1%Q. rewrite Qmult_1_l.
    rewrite <- Zle_Qle. lia.
  - split; [lia | reflexivity].
Qed.

Lemma times100_width (x : Q) :
  (0 <= x)%Q -> (x <= 1)%Q ->
  exists w, times100 (JS.Fin x) = JS.Fin w /\ (0 <= w)%Q /\ (w <= 100)%Q.
Proof.
  intros H0 H1. simpl. apply (round64_bounds _ 100).
  - lra.
  - change (inject_Z 100) with 100%Q. lra.
  - split; [lia | reflexivity].
Qed.

Section Bars.
Context `{host : Host}.

Lemma counted_nonneg rows k i : (0 <= counted rows k i)%Z.
Proof. unfold counted. apply Nat2Z.is_nonneg. Qed.

(** X15: the table has one row for each entry of the cross-tabulation. A
    row is labelled with its language and has three bars, numbered 0, 1
    and 2; each fraction is a Number from 0 to 1 and each bar is 100 times
    its fraction wide, a Number from 0 to 100. *)
Theorem table_rows_and_bars (rows : list obj) (container : list element) :
  exists divs,
    renderAgreementTable rows container = (container ++ [section divs])%list /\
    length divs = length (data rows) /\
    forall dv, In dv divs ->
      exists x y z wx wy wz : Q,
        datum dv = (label dv, [JS.Fin x; JS.Fin y; JS.Fin z]) /\
        bars dv = [(0, JS.Fin wx); (1, JS.Fin wy); (2, JS.Fin wz)] /\
        times100 (JS.Fin x) = JS.Fin wx /\
        times100 (JS.Fin y) = JS.Fin wy /\
        times100 (JS.Fin z) = JS.Fin wz /\
        (0 <= x <= 1 /\ 0 <= y <= 1 /\ 0 <= z <= 1)%Q /\
        (0 <= wx <= 100 /\ 0 <= wy <= 100 /\ 0 <= wz <= 100)%Q.
Proof.
  eexists. split; [reflexivity|].
  pose proof (sort_Permutation (fun dv => agree (datum dv)) (map enterDiv (data rows))) as P.
  split.
  - rewrite (Permutation_length P). apply length_map.
  - intros dv Hdv. apply (Permutation_in _ P) in Hdv.
    apply in_map_iff in Hdv as ([k fr] & <- & Hd).
    apply data_In_iff in Hd as (_ & Hs & ->).
    pose proof (counted_nonneg rows k 0). pose proof (counted_nonneg rows k 1).
    pose proof (counted_nonneg rows k 2).
    destruct (divide_fraction (counted rows k 0)
                (counted rows k 0 + counted rows k 1 + counted rows k 2))
      as (x & Ex & X0 & X1); [lia | lia|].
    destruct (divide_fraction (counted rows k 1)
                (counted rows k 0 + counted rows k 1 + counted rows k 2))
      as (y & Ey & Y0 & Y1); [lia | lia|].
    destruct (divide_fraction (counted rows k 2)
                (counted rows k 0 + counted rows k 1 + counted rows k 2))
      as (z & Ez & Z0 & Z1); [lia | lia|].
    destruct (times100_width x X0 X1) as (wx & Ewx & Wx0 & Wx1).
    destruct (times100_width y Y0 Y1) as (wy & Ewy & Wy0 & Wy1).
    destruct (times100_width z Z0 Z1) as (wz & Ewz & Wz0 & Wz1).
    exists x, y, z, wx, wy, wz. unfold enterDiv. cbn [datum bars label map fst snd].
    rewrite Ex, Ey, Ez. cbn [imap]. unfold compose. rewrite Ewx, Ewy, Ewz.
    repeat split; assumption || reflexivity.
Qed.

End Bars.

(** ** The groups of the response stream *)

Lemma isReligious_returns (d : obj) :
  (exists b, isReligious d = Return b) <-> exists l, prop d fields.beliefs = VList l.
Proof.
  unfold isReligious. destruct (prop d fields.beliefs); split; intros [x H];
    try discriminate; eauto.
Qed.

Lemma nest_returns (rows : list obj) :
  (exists g, nest rows = Return g) <->
  List.Forall (fun d => exists l, prop d fields.beliefs = VList l) rows.
Proof.
  induction rows as [|d rows IH]; simpl.
  - split; [constructor | eauto].
  - split.
    + intros [g H]. destruct (isReligious d) as [b|] eqn:E; [|discriminate].
      destruct (nest rows) as [g'|]; [|discriminate].
      constructor; [apply isReligious_returns; eauto | apply IH; eauto].
    + intros H. inversion H as [|? ? Hd Hr]; subst.
      apply isReligious_returns in Hd as [b ->]. apply IH in Hr as [g' ->]. eauto.
Qed.

Lemma filter_keys_NoDup {A} (p : string * A -> bool) (g : list (string * A)) :
  NoDup (map fst g) -> NoDup (map fst (List.filter p g)).
Proof. apply NoDup_keys_filter. Qed.



Section Stream.
Context `{host : Host}.


(** X17: the handler throws when one of the rows has not been through
    [parseRow]: a row whose beliefs cell is not an array. Nothing is then
    added to the container. *)
Theorem callback_throws_on_raw (error : option string) (rows : list obj)
    (container : list element) (d : obj) :
  In d rows ->
  (forall l, prop d fields.beliefs <> VList l) ->
  callback error (Some rows) container = Throw.
Proof.
  intros Hd Hn. unfold callback, renderResponseStream.
  destruct (nest rows) as [g|] eqn:E; [|reflexivity].
  exfalso. assert (R : exists g, nest rows = Return g) by eauto.
  apply nest_returns in R. rewrite List.Forall_forall in R.
  destruct (R d Hd) as [l Hl]. exact (Hn l Hl).
Qed.

End Stream.


Lemma callback_throws_on_raw_witness :
  In (rawRow "yesterday" "Atheist" "4" "Go")
     (loaded exampleRaws ++ [rawRow "yesterday" "Atheist" "4" "Go"])%list /\
  (forall l, prop (rawRow "yesterday" "Atheist" "4" "Go") fields.beliefs <> VList l) /\
  callback None (Some (loaded exampleRaws ++ [rawRow "yesterday" "Atheist" "4" "Go"])%list) []
  = Throw.
Proof.
  assert (H1 : In (rawRow "yesterday" "Atheist" "4" "Go")
                  (loaded exampleRaws ++ [rawRow "yesterday" "Atheist" "4" "Go"])%list)
    by (apply in_or_app; right; left; reflexivity).
  assert (H2 : forall l, prop (rawRow "yesterday" "Atheist" "4" "Go") fields.beliefs <> VList l)
    by (intros l; vm_compute; discriminate).
  split; [exact H1|]. split; [exact H2|].
  exact (callback_throws_on_raw None _ [] _ H1 H2).
Defined.

(** ** [counts] *)

Section Counts.
Context `{host : Host}.
Variable memberText : string -> string.

Lemma countOne_get (m : Obj.t countCell) (x : value) (k : string) :
  inheritedKey (ToString x) = false ->
  (forall s, Obj.get m (ToString x) <> Some (Text s)) ->
  Obj.get (countOne memberText m x) k =
  if String.eqb (ToString x) k then Some (Count (countOf m k + 1))
  else Obj.get m k.
Proof.
  intros Hx Ht. unfold countOne, countOf.
  assert (P : String.eqb (ToString x) "__proto__" = false).
  { destruct (String.eqb_spec (ToString x) "__proto__") as [E|]; [|reflexivity].
    rewrite E in Hx. discriminate. }
  destruct (String.eqb_spec (ToString x) k) as [<- | N].
  - destruct (Obj.get m (ToString x)) as [[n|s]|] eqn:E.
    + apply Obj_get_set_eq.
    + exfalso. now apply (Ht s).
    + rewrite P, Hx. apply Obj_get_set_eq.
  - destruct (Obj.get m (ToString x)) as [[n|s]|] eqn:E.
    + now apply Obj_get_set_ne.
    + exfalso. now apply (Ht s).
    + rewrite P, Hx. now apply Obj_get_set_ne.
Qed.

Lemma occurrences_cons (x : value) (values : list value) (k : string) :
  occurrences (x :: values) k =
  ((if String.eqb (ToString x) k then 1 else 0) + occurrences values k)%Z.
Proof.
  unfold occurrences. cbn [List.filter].
  destruct (String.eqb (ToString x) k); cbn [length]; lia.
Qed.

Lemma occurrences_nonneg (values : list value) (k : string) :
  (0 <= occurrences values k)%Z.
Proof. unfold occurrences. lia. Qed.

Lemma fold_countOne_get (values : list value) (k : string) : forall m,
  List.Forall (fun x => inheritedKey (ToString x) = false) values ->
  (forall k' s, Obj.get m k' <> Some (Text s)) ->
  Obj.get (fold_left (countOne memberText) values m) k =
  (if (occurrences values k =? 0)%Z then Obj.get m k
   else Some (Count (countOf m k + occurrences values k))).
Proof.
  induction values as [|x vs IH]; intros m Hv Hm.
  - reflexivity.
  - inversion Hv as [|? ? Hx Hvs]; subst. cbn [fold_left].
    assert (Hm' : forall k' s, Obj.get (countOne memberText m x) k' <> Some (Text s)).
    { intros k' s. rewrite countOne_get by auto.
      destruct (String.eqb (ToString x) k'); [discriminate | apply Hm]. }
    rewrite (IH _ Hvs Hm'). rewrite occurrences_cons.
    pose proof (occurrences_nonneg vs k) as Hn.
    unfold countOf at 1. rewrite countOne_get by auto.
    destruct (String.eqb (ToString x) k).
    + destruct (Z.eqb_spec (occurrences vs k) 0) as [E|E];
        destruct (Z.eqb_spec (1 + occurrences vs k) 0) as [E'|E']; try lia.
      * rewrite E. reflexivity.
      * do 2 f_equal. lia.
    + change (0 + occurrences vs k)%Z with (occurrences vs k).
      destruct (Z.eqb_spec (occurrences vs k) 0); reflexivity.
Qed.

Lemma countOne_keys_NoDup (m : Obj.t countCell) (x : value) :
  NoDup (map fst m) -> NoDup (map fst (countOne memberText m x)).
Proof.
  intros Hm. unfold countOne.
  destruct (Obj.get m (ToString x)) as [[n|s]|].
  - now apply Obj_set_NoDup.
  - destruct (String.eqb s EmptyString); now apply Obj_set_NoDup.
  - destruct (String.eqb (ToString x) "__proto__"); [assumption|].
    destruct (inheritedKey (ToString x)); now apply Obj_set_NoDup.
Qed.

Lemma counts_keys_NoDup (values : list value) : forall m,
  NoDup (map fst m) -> NoDup (map fst (fold_left (countOne memberText) values m)).
Proof.
  induction values as [|x vs IH]; intros m Hm; [exact Hm|].
  cbn [fold_left]. apply IH. now apply countOne_keys_NoDup.
Qed.

Lemma totalCount_set (m : Obj.t countCell) (k : string) (n : Z) :
  totalCount (Obj.set m k (Count n)) = (totalCount m - countOf m k + n)%Z.
Proof.
  unfold countOf. induction m as [|[k' c] m IH].
  - cbn. lia.
  - cbn [Obj.set Obj.get]. destruct (String.eqb k k').
    + destruct c; cbn; lia.
    + change (totalCount ((k', c) :: Obj.set m k (Count n)))
        with (match c with Count i => i + totalCount (Obj.set m k (Count n)) | Text _ => totalCount (Obj.set m k (Count n)) end)%Z.
      change (totalCount ((k', c) :: m))
        with (match c with Count i => i + totalCount m | Text _ => totalCount m end)%Z.
      destruct c; lia.
Qed.

Lemma countOne_total (m : Obj.t countCell) (x : value) :
  inheritedKey (ToString x) = false ->
  (forall s, Obj.get m (ToString x) <> Some (Text s)) ->
  totalCount (countOne memberText m x) = (totalCount m + 1)%Z.
Proof.
  intros Hx Ht. unfold countOne.
  assert (P : String.eqb (ToString x) "__proto__" = false).
  { destruct (String.eqb_spec (ToString x) "__proto__") as [E|]; [|reflexivity].
    rewrite E in Hx. discriminate. }
  destruct (Obj.get m (ToString x)) as [[n|s]|] eqn:E.
  - rewrite totalCount_set. unfold countOf. rewrite E. lia.
  - exfalso. now apply (Ht s).
  - rewrite P, Hx, totalCount_set. unfold countOf. rewrite E. lia.
Qed.

Lemma fold_countOne_total (values : list value) : forall m,
  List.Forall (fun x => inheritedKey (ToString x) = false) values ->
  (forall k' s, Obj.get m k' <> Some (Text s)) ->
  totalCount (fold_left (countOne memberText) values m) =
  (totalCount m + Z.of_nat (length values))%Z.
Proof.
  induction values as [|x vs IH]; intros m Hv Hm.
  - cbn [fold_left length]. lia.
  - inversion Hv as [|? ? Hx Hvs]; subst. cbn [fold_left].
    assert (Hm' : forall k' s, Obj.get (countOne memberText m x) k' <> Some (Text s)).
    { intros k' s. rewrite countOne_get by auto.
      destruct (String.eqb (ToString x) k'); [discriminate | apply Hm]. }
    rewrite (IH _ Hvs Hm'), countOne_total by auto. cbn [length]. lia.
Qed.

(** X18: when no value of the array has a key that a plain object inherits,
    [counts] holds under each key the number of values with that key, and
    holds nothing under a key that no value has. *)
Theorem counts_occurrences (values : list value) (k : string) :
  List.Forall (fun x => inheritedKey (ToString x) = false) values ->
  Obj.get (counts memberText values) k =
  if (occurrences values k =? 0)%Z then None
  else Some (Count (occurrences values k)).
Proof.
  intros Hv. unfold counts. rewrite fold_countOne_get; [|exact Hv|discriminate].
  reflexivity.
Qed.

(** X19: when no value has a key that a plain object inherits, the
    counts of [counts] add up to the length of the array. *)
Theorem counts_total (values : list value) :
  List.Forall (fun x => inheritedKey (ToString x) = false) values ->
  totalCount (counts memberText values) = Z.of_nat (length values).
Proof.
  intros Hv. unfold counts. rewrite fold_countOne_total; [|exact Hv|discriminate].
  reflexivity.
Qed.

Lemma countOne_keys (m : Obj.t countCell) (x : value) (k : string) :
  In k (map fst (countOne memberText m x)) -> k = ToString x \/ In k (map fst m).
Proof.
  assert (S : forall c, In k (map fst (Obj.set m (ToString x) c)) ->
                        k = ToString x \/ In k (map fst m)).
  { intros c. rewrite Obj_set_keys. destruct (Obj.get m (ToString x)); [now right|].
    rewrite in_app_iff. cbn. intuition. }
  unfold countOne. destruct (Obj.get m (ToString x)) as [[n|s]|].
  - apply S.
  - destruct (String.eqb s EmptyString); apply S.
  - destruct (String.eqb (ToString x) "__proto__"); [now right|].
    destruct (inheritedKey (ToString x)); apply S.
Qed.

Lemma fold_countOne_keys (values : list value) (k : string) : forall m,
  In k (map fst (fold_left (countOne memberText) values m)) ->
  In k (map fst m) \/ exists x, In x values /\ ToString x = k.
Proof.
  induction values as [|x vs IH]; intros m; cbn [fold_left]; [now left|].
  intros H. apply IH in H as [H | (y & Hy & E)].
  - apply countOne_keys in H as [-> | H]; [|now left].
    right. exists x. split; [now left | reflexivity].
  - right. exists y. split; [now right | exact E].
Qed.

Lemma countOne_get_other (m : Obj.t countCell) (x : value) (k : string) :
  ToString x <> k -> Obj.get (countOne memberText m x) k = Obj.get m k.
Proof.
  intros N. unfold countOne. destruct (Obj.get m (ToString x)) as [[n|s]|].
  - now apply Obj_get_set_ne.
  - destruct (String.eqb s EmptyString); now apply Obj_get_set_ne.
  - destruct (String.eqb (ToString x) "__proto__"); [reflexivity|].
    destruct (inheritedKey (ToString x)); now apply Obj_get_set_ne.
Qed.

(** What [counts] may hold under a key that a plain object inherits. *)
Lemma countOne_inherited (m : Obj.t countCell) (x : value) (k : string) :
  inheritedKey k = true ->
  match Obj.get m k with
  | Some (Text s) => s <> EmptyString /\ k <> "__proto__"
  | Some (Count _) => False
  | None => True
  end ->
  match Obj.get (countOne memberText m x) k with
  | Some (Text s) => s <> EmptyString /\ k <> "__proto__"
  | Some (Count _) => False
  | None => ToString x = k -> k = "__proto__"
  end.
Proof.
  intros Hk Hm. destruct (String.string_dec (ToString x) k) as [E|N].
  - subst k. unfold countOne.
    destruct (Obj.get m (ToString x)) as [[n|s]|] eqn:G; [destruct Hm| |].
    + destruct Hm as [Hs Hp]. destruct (String.eqb_spec s EmptyString) as [|_]; [contradiction|].
      rewrite Obj_get_set_eq. split; [|exact Hp].
      intros A. apply RegexFacts.append_eq_nil in A as [_ A]. discriminate.
    + destruct (String.eqb_spec (ToString x) "__proto__") as [P|P].
      * rewrite G. intros _. exact P.
      * rewrite Hk, Obj_get_set_eq. split; [|exact P].
        intros A. apply RegexFacts.append_eq_nil in A as [_ A]. discriminate.
  - rewrite countOne_get_other by exact N.
    destruct (Obj.get m k) as [[n|s]|]; [exact Hm | exact Hm | intros E; contradiction].
Qed.

Lemma fold_countOne_inherited (values : list value) (k : string) : forall m,
  inheritedKey k = true ->
  match Obj.get m k with
  | Some (Text s) => s <> EmptyString /\ k <> "__proto__"
  | Some (Count _) => False
  | None => True
  end ->
  match Obj.get (fold_left (countOne memberText) values m) k with
  | Some (Text s) => s <> EmptyString /\ k <> "__proto__"
  | Some (Count _) => False
  | None => Obj.get m k = None /\ ((exists x, In x values /\ ToString x = k) -> k = "__proto__")
  end.
Proof.
  induction values as [|x vs IH]; intros m Hk Hm; cbn [fold_left].
  - destruct (Obj.get m k) as [[n|s]|]; [exact Hm | exact Hm|].
    split; [reflexivity|]. now intros (x & [] & _).
  - pose proof (countOne_inherited m x k Hk Hm) as H1.
    assert (H2 : match Obj.get (countOne memberText m x) k with
                 | Some (Text s) => s <> EmptyString /\ k <> "__proto__"
                 | Some (Count _) => False
                 | None => True
                 end) by (destruct (Obj.get (countOne memberText m x) k) as [[n|s]|]; auto).
    specialize (IH _ Hk H2).
    destruct (Obj.get (fold_left (countOne memberText) vs (countOne memberText m x)) k)
      as [[n|s]|]; [exact IH | exact IH|].
    destruct IH as [G IH]. rewrite G in H1. split.
    + destruct (String.string_dec (ToString x) k) as [E|N].
      * specialize (H1 E). rewrite H1 in Hm |- *.
        destruct (Obj.get m "__proto__") as [[n|s]|]; [destruct Hm| |reflexivity].
        exfalso. now destruct Hm.
      * rewrite countOne_get_other in G by exact N. exact G.
    + intros (y & [->|Hy] & E); [now apply H1|]. apply IH. now exists y.
Qed.

(** X20: whatever the values, the keys of [counts] are distinct, each one
    is the string of a value of the array, and [__proto__] is never one. *)
Theorem counts_keys (values : list value) :
  NoDup (map fst (counts memberText values)) /\
  (forall k, In k (map fst (counts memberText values)) ->
             exists x, In x values /\ ToString x = k) /\
  Obj.get (counts memberText values) "__proto__" = None.
Proof.
  split; [|split].
  - apply counts_keys_NoDup. constructor.
  - intros k H. apply fold_countOne_keys in H as [[] | H]. exact H.
  - pose proof (fold_countOne_inherited values "__proto__" [] eq_refl I) as H.
    unfold counts. destruct (Obj.get _ "__proto__") as [[n|s]|]; [destruct H| |reflexivity].
    now destruct H.
Qed.

(** X21: a value whose key a plain object inherits is not counted: under
    that key [counts] holds a text that is not empty, or, for [__proto__],
    nothing at all. *)
Theorem counts_inherited (values : list value) (x : value) :
  In x values -> inheritedKey (ToString x) = true ->
  match Obj.get (counts memberText values) (ToString x) with
  | Some (Text s) => s <> EmptyString /\ ToString x <> "__proto__"
  | Some (Count _) => False
  | None => ToString x = "__proto__"
  end.
Proof.
  intros Hx Hk.
  pose proof (fold_countOne_inherited values (ToString x) [] Hk I) as H.
  unfold counts. destruct (Obj.get _ (ToString x)) as [[n|s]|]; [exact H | exact H|].
  apply H. now exists x.
Qed.

End Counts.

Lemma counts_occurrences_witness :
  List.Forall (fun x => inheritedKey (ToString x) = false) [VStr "go"; VStr "ruby"; VStr "go"] /\
  Obj.get (counts nativeText [VStr "go"; VStr "ruby"; VStr "go"]) "go" = Some (Count 2).
Proof.
  assert (H : List.Forall (fun x => inheritedKey (ToString x) = false)
                [VStr "go"; VStr "ruby"; VStr "go"])
    by (repeat constructor).
  split; [exact H|].
  exact (counts_occurrences nativeText [VStr "go"; VStr "ruby"; VStr "go"] "go" H).
Defined.

Lemma counts_total_witness :
  List.Forall (fun x => inheritedKey (ToString x) = false) [VStr "go"; VStr "ruby"; VStr "go"] /\
  totalCount (counts nativeText [VStr "go"; VStr "ruby"; VStr "go"]) = 3%Z.
Proof.
  assert (H : List.Forall (fun x => inheritedKey (ToString x) = false)
                [VStr "go"; VStr "ruby"; VStr "go"])
    by (repeat constructor).
  split; [exact H|].
  exact (counts_total nativeText [VStr "go"; VStr "ruby"; VStr "go"] H).
Defined.

Lemma counts_inherited_witness :
  In (VStr "constructor") [VStr "go"; VStr "constructor"; VStr "constructor"] /\
  inheritedKey (ToString (VStr "constructor")) = true /\
  match Obj.get (counts nativeText [VStr "go"; VStr "constructor"; VStr "constructor"])
                (ToString (VStr "constructor")) with
  | Some (Text s) => s <> EmptyString /\ ToString (VStr "constructor") <> "__proto__"
  | Some (Count _) => False
  | None => ToString (VStr "constructor") = "__proto__"
  end.
Proof.
  assert (H1 : In (VStr "constructor") [VStr "go"; VStr "constructor"; VStr "constructor"])
    by (right; left; reflexivity).
  assert (H2 : inheritedKey (ToString (VStr "constructor")) = true) by reflexivity.
  split; [exact H1|]. split; [exact H2|].
  exact (counts_inherited nativeText _ _ H1 H2).
Defined.

(** ** [runningTotal] *)

Lemma roundHalfEven_comp (x y : Q) :
  (x == y)%Q -> JS.roundHalfEven x = JS.roundHalfEven y.
Proof.
  intros E. unfold JS.roundHalfEven. rewrite (Qfloor_comp x y E).
  assert (C : (x - inject_Z (Qfloor y) == y - inject_Z (Qfloor y))%Q) by (rewrite E; reflexivity).
  now rewrite (Qcompare_comp _ _ C (1 # 2) (1 # 2) (Qeq_refl _)).
Qed.

Lemma roundHalfEven_Z (z : Z) : JS.roundHalfEven (inject_Z z) = z.
Proof.
  unfold JS.roundHalfEven. rewrite Qfloor_Z.
  assert (E : (inject_Z z - inject_Z z == 0)%Q) by ring.
  now rewrite (Qcompare_comp _ _ E (1 # 2) (1 # 2) (Qeq_refl _)).
Qed.

Lemma Qred_inject_Z (n : Z) : Qred (inject_Z n) = inject_Z n.
Proof.
  unfold Qred, inject_Z.
  generalize (Z.ggcd_gcd n 1), (Z.ggcd_correct_divisors n 1).
  destruct (Z.ggcd n 1) as (g, (a, b)). cbn [fst snd]. intros Hg [Ha Hb].
  rewrite Z.gcd_1_r in Hg. subst g.
  replace a with n by lia. replace b with 1%Z by lia. reflexivity.
Qed.

(** A whole number from 0 to [2^53] is a Number: rounding leaves it as it
    is. *)
Lemma round64_whole (q : Q) (n : Z) :
  (q == inject_Z n)%Q -> (0 <= n < 2 ^ 53)%Z -> JS.round64 q = JS.ofZ n.
Proof.
  intros Eq Hn. unfold JS.round64, JS.ofZ. destruct (Qnum q) as [|p|p] eqn:En.
  - assert (n = 0%Z).
    { unfold Qeq in Eq. rewrite En in Eq. cbn in Eq. lia. }
    subst n. reflexivity.
  - assert (Hpos : (0 < q)%Q) by (unfold Qlt; rewrite En; simpl; lia).
    assert (Hn0 : (0 < n)%Z).
    { rewrite Zlt_Qlt. change (inject_Z 0) with 0%Q. lra. }
    unfold JS.round64_pos.
    set (e := Z.max (JS.exponent q) (-1022)).
    assert (He : (e <= 52)%Z).
    { pose proof (exponent_le q n Hpos ltac:(lra)).
      assert (Z.log2 n < 53)%Z by (apply Z.log2_lt_pow2; lia). lia. }
    set (ulp := JS.pow2 (e - 52)).
    set (K := (2 ^ (52 - e))%Z).
    assert (Hu0 : (0 < ulp)%Q) by apply pow2_pos.
    assert (HK : (ulp * inject_Z K == 1)%Q).
    { unfold ulp, K. rewrite <- pow2_Z by lia.
      replace (52 - e)%Z with (- (e - 52))%Z by lia. apply pow2_inverse. }
    assert (Hq : (q / ulp == inject_Z (n * K))%Q).
    { assert (E : (q / ulp == q / ulp * (ulp * inject_Z K))%Q) by (rewrite HK; ring).
      rewrite E, inject_Z_mult, Eq. field. lra. }
    rewrite (roundHalfEven_comp _ _ Hq), roundHalfEven_Z.
    assert (R : (inject_Z (n * K) * ulp == inject_Z n)%Q).
    { rewrite inject_Z_mult, <- Qmult_assoc, (Qmult_comm (inject_Z K)), HK. ring. }
    assert (Hb : Qle_bool (JS.pow2 1024) (inject_Z (n * K) * ulp) = false).
    { destruct (Qle_bool (JS.pow2 1024) (inject_Z (n * K) * ulp)) eqn:Eb; [|reflexivity].
      apply Qle_bool_iff in Eb.
      assert (Hs : (inject_Z (2 ^ 53) < JS.pow2 1024)%Q) by reflexivity.
      assert (Hm : (inject_Z n < inject_Z (2 ^ 53))%Q) by (rewrite <- Zlt_Qlt; lia).
      lra. }
    rewrite Hb. f_equal. rewrite (Qred_complete _ _ R). apply Qred_inject_Z.
  - exfalso. unfold Qeq in Eq. rewrite En in Eq. cbn in Eq. lia.
Qed.

Lemma number_add_whole (a b : Z) :
  (0 <= a)%Z -> (0 <= b)%Z -> (a + b < 2 ^ 53)%Z ->
  number_add (JS.ofZ a) (JS.ofZ b) = JS.ofZ (a + b).
Proof.
  intros Ha Hb Hs. unfold number_add, JS.ofZ. apply round64_whole; [|lia].
  now rewrite inject_Z_plus.
Qed.

Section RunningTotal.
Context `{host : Host}.
Variable accessor : obj -> JS.number.

Lemma runningTotal_loop_spec (elements : list loc) : forall (rs : list obj) before prevT (h : heap),
  NoDup elements ->
  Forall2 (fun x r => h !! x = Some r) elements rs ->
  match before with
  | None => prevT = JS.Fin 0
  | Some p => exists rp, h !! p = Some rp /\ prop rp "runningTotal" = VNum prevT
  end ->
  exists h', runningTotal_loop accessor before elements h = Return (tt, h') /\
    (forall i x r t, elements !! i = Some x -> rs !! i = Some r ->
       totalsFrom prevT (map accessor rs) !! i = Some t ->
       h' !! x = Some (<["runningTotal" := VNum t]> r)) /\
    (forall y, y ∉ elements -> h' !! y = h !! y).
Proof.
  induction elements as [|x rest IH]; intros rs before prevT h ND F Hp.
  - exists h. split; [reflexivity|]. split; [|reflexivity].
    intros i x r t E. now rewrite lookup_nil in E.
  - inversion F as [|? r ? rs' Hx F']; subst.
    apply NoDup_cons in ND as [Nx ND].
    set (t := number_add (accessor r) prevT).
    set (h1 := <[x := <["runningTotal" := VNum t]> r]> h).
    assert (E1 : runningTotal_loop accessor before (x :: rest) h =
                 runningTotal_loop accessor (Some x) rest h1).
    { cbn [runningTotal_loop]. unfold mbind, M_bind. rewrite Hx.
      unfold h1, t. destruct before as [p|].
      - destruct Hp as (rp & Ep & Et). rewrite Ep.
        change (default ∅ (Some rp)) with rp. rewrite Et. reflexivity.
      - rewrite Hp. reflexivity. }
    assert (F1 : Forall2 (fun x r => h1 !! x = Some r) rest rs').
    { clear -F' Nx. induction F' as [|y r' ys rs'' Hy F'' IH']; constructor.
      - unfold h1. rewrite lookup_insert_ne; [exact Hy|]. intros ->. apply Nx. now left.
      - apply IH'. intros Hin. apply Nx. now right. }
    destruct (IH rs' (Some x) t h1 ND F1) as (h' & Eh & Hs & Hf).
    { exists (<["runningTotal" := VNum t]> r). split.
      - unfold h1. apply lookup_insert_eq.
      - unfold prop. now rewrite lookup_insert_eq. }
    exists h'. split; [now rewrite E1|]. split.
    + intros [|i] y ry ty Ey Er Et; cbn in Ey, Er, Et.
      * inversion Ey; inversion Er; inversion Et; subst.
        rewrite (Hf y Nx). unfold h1. apply lookup_insert_eq.
      * now apply (Hs i).
    + intros y Hy. rewrite Hf.
      * unfold h1. apply lookup_insert_ne. intros ->. apply Hy. now left.
      * intros Hin. apply Hy. now right.
Qed.

(** X22: on distinct elements that are all there, [runningTotal] returns;
    it gives each element, under [runningTotal], what the accessor reads
    from it plus the total of the element before (0 for the first), leaves
    the rest of each element as it was, and touches no other object. *)
Theorem runningTotal_totals (elements : list loc) (rs : list obj) (h : heap) :
  NoDup elements ->
  Forall2 (fun x r => h !! x = Some r) elements rs ->
  exists h', runningTotal elements accessor h = Return (tt, h') /\
    (forall i x r t, elements !! i = Some x -> rs !! i = Some r ->
       totalsFrom (JS.Fin 0) (map accessor rs) !! i = Some t ->
       h' !! x = Some (<["runningTotal" := VNum t]> r)) /\
    (forall y, y ∉ elements -> h' !! y = h !! y).
Proof.
  intros ND F. now apply (runningTotal_loop_spec elements rs None (JS.Fin 0) h).
Qed.

Lemma totalsFrom_whole (ns : list Z) : forall (p : Z) (i : nat),
  (0 <= p)%Z -> List.Forall (fun n => 0 <= n)%Z ns ->
  (p + fold_right Z.add 0%Z ns < 2 ^ 53)%Z -> (i < length ns)%nat ->
  totalsFrom (JS.ofZ p) (map JS.ofZ ns) !! i =
  Some (JS.ofZ (p + fold_right Z.add 0%Z (take (S i) ns))).
Proof.
  induction ns as [|n ns IH]; intros p i Hp Hns Hs Hi; [cbn in Hi; lia|].
  inversion Hns as [|? ? Hn Hns']; subst. cbn [fold_right] in Hs. cbv beta in Hn.
  assert (Hrest : (0 <= fold_right Z.add 0%Z ns)%Z).
  { clear -Hns'. induction Hns' as [|a l Ha _ IH']; cbn [fold_right]; [lia|].
    cbv beta in Ha. lia. }
  cbn [map totalsFrom]. rewrite number_add_whole by lia.
  destruct i as [|i].
  - replace (p + fold_right Z.add 0%Z (take 1 (n :: ns)))%Z with (n + p)%Z
      by (cbn [firstn fold_right]; rewrite firstn_O; cbn [fold_right]; lia).
    reflexivity.
  - replace (p + fold_right Z.add 0%Z (take (S (S i)) (n :: ns)))%Z
      with (n + p + fold_right Z.add 0%Z (take (S i) ns))%Z
      by (cbn [firstn fold_right]; lia).
    rewrite <- IH; [reflexivity|lia|exact Hns'|lia|cbn [length] in Hi; lia].
Qed.

(** X23: when the accessor reads whole numbers from 0 up whose sum is
    below [2^53], the running totals are exact: each element gets the sum
    of the numbers up to and including its own. *)
Theorem runningTotal_whole (elements : list loc) (rs : list obj) (ns : list Z) (h : heap) :
  NoDup elements ->
  Forall2 (fun x r => h !! x = Some r) elements rs ->
  map accessor rs = map JS.ofZ ns ->
  List.Forall (fun n => 0 <= n)%Z ns ->
  (fold_right Z.add 0%Z ns < 2 ^ 53)%Z ->
  exists h', runningTotal elements accessor h = Return (tt, h') /\
    forall i x r, elements !! i = Some x -> rs !! i = Some r ->
      h' !! x = Some (<["runningTotal" :=
                         VNum (JS.ofZ (fold_right Z.add 0%Z (take (S i) ns)))]> r).
Proof.
  intros ND F Ea Hns Hs.
  destruct (runningTotal_loop_spec elements rs None (JS.Fin 0) h ND F eq_refl)
    as (h' & Eh & Ht & _).
  exists h'. split; [exact Eh|]. intros i x r Ex Er.
  apply (Ht i x r _ Ex Er). rewrite Ea.
  assert (Hi : (i < length ns)%nat).
  { rewrite <- (length_map JS.ofZ ns), <- Ea, length_map.
    apply lookup_lt_Some with r. exact Er. }
  change (JS.Fin 0) with (JS.ofZ 0).
  rewrite totalsFrom_whole; [reflexivity|lia|exact Hns|lia|exact Hi].
Qed.

Lemma plus_number (a b : JS.number) : plus a (VNum b) = VNum (number_add a b).
Proof. reflexivity. Qed.

Lemma runningTotal_loop_numbers (elements : list loc) : forall before (h : heap),
  List.Forall (fun x => is_Some (h !! x)) elements ->
  match before with
  | None => True
  | Some p => exists rp t, h !! p = Some rp /\ rp !! "runningTotal" = Some (VNum t)
  end ->
  exists h', runningTotal_loop accessor before elements h = Return (tt, h') /\
    (forall y, (exists r t, h !! y = Some r /\ r !! "runningTotal" = Some (VNum t)) ->
               exists r t, h' !! y = Some r /\ r !! "runningTotal" = Some (VNum t)) /\
    (forall x, In x elements ->
               exists r t, h' !! x = Some r /\ r !! "runningTotal" = Some (VNum t)) /\
    (forall y, is_Some (h' !! y) <-> is_Some (h !! y)).
Proof.
  induction elements as [|x rest IH]; intros before h Hv Hp.
  - exists h. split; [reflexivity|]. split; [auto|]. split; [intros x []|reflexivity].
  - inversion Hv as [|? ? [r Hx] Hv']; subst.
    assert (Hprev : exists tp, match before with
                               | None => VNum (JS.Fin 0)
                               | Some p => prop (default ∅ (h !! p)) "runningTotal"
                               end = VNum tp).
    { destruct before as [p|]; [|now exists (JS.Fin 0)].
      destruct Hp as (rp & t & Ep & Et). exists t. rewrite Ep.
      change (default ∅ (Some rp)) with rp. unfold prop. now rewrite Et. }
    destruct Hprev as [tp Etp].
    set (t := number_add (accessor r) tp).
    set (h1 := <[x := <["runningTotal" := VNum t]> r]> h).
    assert (E1 : runningTotal_loop accessor before (x :: rest) h =
                 runningTotal_loop accessor (Some x) rest h1).
    { cbn [runningTotal_loop]. unfold mbind, M_bind. rewrite Hx, Etp. reflexivity. }
    assert (Hx1 : exists r' t', h1 !! x = Some r' /\ r' !! "runningTotal" = Some (VNum t')).
    { exists (<["runningTotal" := VNum t]> r), t. split.
      - unfold h1. apply lookup_insert_eq.
      - apply lookup_insert_eq. }
    assert (Hdom : forall y, is_Some (h1 !! y) <-> is_Some (h !! y)).
    { intros y. unfold h1. destruct (decide (x = y)) as [<-|N].
      - rewrite lookup_insert_eq, Hx. split; eauto.
      - now rewrite lookup_insert_ne. }
    assert (Hv1 : List.Forall (fun x => is_Some (h1 !! x)) rest).
    { rewrite List.Forall_forall in Hv' |- *. intros y Hy. apply Hdom. auto. }
    destruct (IH (Some x) h1 Hv1 Hx1) as (h' & Eh & Hk & Ha & Hd).
    exists h'. split; [now rewrite E1|]. split; [|split].
    + intros y Hy. apply Hk. destruct (decide (x = y)) as [<-|N]; [exact Hx1|].
      unfold h1. now rewrite lookup_insert_ne.
    + intros y [<-|Hy]; [now apply Hk | now apply Ha].
    + intros y. now rewrite Hd.
Qed.

(** X24: on elements that are all there, distinct or not, [runningTotal]
    returns, every element then holds a Number under [runningTotal], and
    the objects there are stay the same ones. *)
Theorem runningTotal_numbers (elements : list loc) (h : heap) :
  List.Forall (fun x => is_Some (h !! x)) elements ->
  exists h', runningTotal elements accessor h = Return (tt, h') /\
    (forall x, In x elements ->
               exists r t, h' !! x = Some r /\ r !! "runningTotal" = Some (VNum t)) /\
    (forall y, is_Some (h' !! y) <-> is_Some (h !! y)).
Proof.
  intros Hv. destruct (runningTotal_loop_numbers elements None h Hv I) as (h' & E & _ & Ha & Hd).
  exists h'. auto.
Qed.


End RunningTotal.

Lemma runningTotal_totals_witness :
  NoDup [1; 2] /\
  Forall2 (fun x r => twoElements !! x = Some r) [1; 2]
    [ {[ "count" := VNum (JS.Fin 2) ]}; {[ "count" := VNum (JS.Fin 3) ]} ] /\
  exists h', runningTotal [1; 2] countOfElement twoElements = Return (tt, h') /\
    h' !! 2 = Some (<["runningTotal" := VNum (JS.Fin 5)]> {[ "count" := VNum (JS.Fin 3) ]}) /\
    h' !! 7 = twoElements !! 7.
Proof.
  assert (H1 : NoDup [1; 2]) by compute_done.
  assert (H2 : Forall2 (fun x r => twoElements !! x = Some r) [1; 2]
                 [ {[ "count" := VNum (JS.Fin 2) ]}; {[ "count" := VNum (JS.Fin 3) ]} ])
    by (repeat constructor).
  split; [exact H1|]. split; [exact H2|].
  destruct (runningTotal_totals countOfElement _ _ _ H1 H2) as (h' & E & Ht & Hf).
  exists h'. split; [exact E|]. split.
  - apply (Ht 1%nat); reflexivity.
  - apply Hf. compute_done.
Defined.

Lemma runningTotal_whole_witness :
  NoDup [1; 2] /\
  Forall2 (fun x r => twoElements !! x = Some r) [1; 2]
    [ {[ "count" := VNum (JS.Fin 2) ]}; {[ "count" := VNum (JS.Fin 3) ]} ] /\
  map countOfElement [ {[ "count" := VNum (JS.Fin 2) ]}; {[ "count" := VNum (JS.Fin 3) ]} ]
  = map JS.ofZ [2; 3]%Z /\
  List.Forall (fun n => 0 <= n)%Z [2; 3]%Z /\
  (fold_right Z.add 0%Z [2; 3] < 2 ^ 53)%Z /\
  exists h', runningTotal [1; 2] countOfElement twoElements = Return (tt, h') /\
    h' !! 2 = Some (<["runningTotal" := VNum (JS.ofZ 5)]> {[ "count" := VNum (JS.Fin 3) ]}).
Proof.
  assert (H1 : NoDup [1; 2]) by compute_done.
  assert (H2 : Forall2 (fun x r => twoElements !! x = Some r) [1; 2]
                 [ {[ "count" := VNum (JS.Fin 2) ]}; {[ "count" := VNum (JS.Fin 3) ]} ])
    by (repeat constructor).
  assert (H3 : map countOfElement
                 [ {[ "count" := VNum (JS.Fin 2) ]}; {[ "count" := VNum (JS.Fin 3) ]} ]
               = map JS.ofZ [2; 3]%Z) by reflexivity.
  assert (H4 : List.Forall (fun n => 0 <= n)%Z [2; 3]%Z) by (repeat constructor; lia).
  assert (H5 : (fold_right Z.add 0%Z [2; 3] < 2 ^ 53)%Z) by reflexivity.
  split; [exact H1|]. split; [exact H2|]. split; [exact H3|]. split; [exact H4|].
  split; [exact H5|].
  destruct (runningTotal_whole countOfElement _ _ _ _ H1 H2 H3 H4 H5) as (h' & E & Ht).
  exists h'. split; [exact E|]. apply (Ht 1%nat); reflexivity.
Defined.

Lemma runningTotal_numbers_witness :
  List.Forall (fun x => is_Some (twoElements !! x)) [1; 2; 1] /\
  exists h', runningTotal [1; 2; 1] countOfElement twoElements = Return (tt, h') /\
    (exists r t, h' !! 1 = Some r /\ r !! "runningTotal" = Some (VNum t)) /\
    ~ is_Some (h' !! 7).
Proof.
  assert (H : List.Forall (fun x => is_Some (twoElements !! x)) [1; 2; 1])
    by (repeat constructor; eexists; reflexivity).
  split; [exact H|].
  destruct (runningTotal_numbers countOfElement _ _ H) as (h' & E & Ha & Hd).
  exists h'. split; [exact E|]. split.
  - apply Ha. now left.
  - rewrite Hd. intros [r Hr]. discriminate Hr.
Defined.

